(** * StudyVibe media pipeline: a shallow embedding and its properties

    The development follows the media ingestion path of the application:

    - [JS]            the string primitives of the host language that the
                      code relies on ([startsWith], [split], [toLowerCase],
                      the regular expression [/data:([^;]+)/], hexadecimal
                      and base64 decoding of buffers);
    - [MediaStorage]  server/media-storage.ts, the local-disk service;
    - [CloudMedia]    the [CloudMediaService] class, the ImgBB upload
                      service that routes.ts imports as ./cloud-media;
    - [Routes]        the [GET /uploads/:filename] handler of
                      server/routes.ts;
    - [MediaUpload]   the [processFile] function of the client component
                      client/src/components/posts/media-upload.tsx.

    Promises are modelled by explicit state passing: an [await]ed call
    returns its outcome together with the next state of the world. *)

From Stdlib Require Import ZArith NArith QArith List String Ascii Bool Lia.
From Stdlib Require Strings.Byte.
From stdpp Require Import base option gmap strings list pretty.
Import ListNotations.

Local Open Scope string_scope.

(** ** Exceptions *)

Inductive Error : Type :=
| JsError (message : string)      (* new Error(message) *)
| TypeError (message : string)    (* raised by the runtime *)
| SystemError (code : string)     (* a rejected fs promise *)
| FetchError (message : string).  (* a rejected fetch promise *)

Inductive result (A : Type) : Type :=
| Ok (a : A)
| Throw (e : Error).
Arguments Ok {A} a.
Arguments Throw {A} e.

Definition throws {A} (r : result A) : Prop :=
  exists e, r = Throw e.

(** ** Asynchronous computations

    An [async] function over a world of type [W]: it returns or throws,
    and leaves the world in a new state either way. *)

Definition M (W A : Type) : Type := W -> result A * W.

Definition ret {W A} (a : A) : M W A := fun w => (Ok a, w).

Definition throw {W A} (e : Error) : M W A := fun w => (Throw e, w).

Definition bind {W A B} (m : M W A) (k : A -> M W B) : M W B :=
  fun w =>
    match m w with
    | (Ok a, w') => k a w'
    | (Throw e, w') => (Throw e, w')
    end.

(** [try { m } catch (error) { handler(error) }] *)
Definition try_catch {W A} (m : M W A) (handler : Error -> M W A) : M W A :=
  fun w =>
    match m w with
    | (Ok a, w') => (Ok a, w')
    | (Throw e, w') => handler e w'
    end.

Notation "x <- m ;; k" := (bind m (fun x => k))
  (at level 90, m at level 80, right associativity).
Notation "m ;;; k" := (bind m (fun _ => k))
  (at level 90, right associativity).

(** The loop shared by the two [processMediaUrls]:
    [for (const x of items) { out.push(await body(x)) } return out]. *)
Fixpoint forOfPush {W A B} (body : A -> M W B) (items : list A) (out : list B)
  : M W (list B) :=
  match items with
  | [] => ret out
  | x :: rest => pushed <- body x ;; forOfPush body rest (out ++ [pushed])
  end.

(** The world in which turn [i] of such a loop starts. *)
Definition worldAt {W A B} (body : A -> M W B) (items : list A) (i : nat) (w : W) : W :=
  snd (forOfPush body (take i items) [] w).

(** A body that returns in every world. *)
Definition total {W A B} (body : A -> M W B) : Prop :=
  forall a w, exists b w', body a w = (Ok b, w').

(** A completed run of the loop, turn by turn. *)
Inductive runs {W A B} (body : A -> M W B) : W -> list A -> list B -> W -> Prop :=
| runs_nil w : runs body w [] [] w
| runs_cons w a b w1 items outs w2 :
    body a w = (Ok b, w1) ->
    runs body w1 items outs w2 ->
    runs body w (a :: items) (b :: outs) w2.

(** ** Host-language primitives *)

Module JS.

(** [s.startsWith(p)] *)
Definition startsWith (s p : string) : bool := String.prefix p s.

(** [s.split(sep)] for a one-character separator: never empty. *)
Fixpoint split (sep : ascii) (s : string) : list string :=
  match s with
  | EmptyString => [EmptyString]
  | String c s' =>
      if Ascii.eqb c sep then EmptyString :: split sep s'
      else match split sep s' with
           | [] => [String c EmptyString]
           | h :: t => String c h :: t
           end
  end.

(** [s.includes(c)] for a one-character needle. *)
Fixpoint includes (c : ascii) (s : string) : bool :=
  match s with
  | EmptyString => false
  | String c' s' => Ascii.eqb c' c || includes c s'
  end.

(** [a.pop()] on a freshly built array: its last element. *)
Definition pop (a : list string) : option string := last a.

(** Truthiness of a string: the empty string is falsy. *)
Definition truthy (s : string) : bool :=
  match s with EmptyString => false | _ => true end.

(** Truthiness of an optional string ([undefined] is falsy). *)
Definition truthy_opt (o : option string) : bool :=
  match o with Some s => truthy s | None => false end.

(** [a || b] on optional strings. *)
Definition or_else (a b : option string) : option string :=
  if truthy_opt a then a else b.

Definition lower_ascii (c : ascii) : ascii :=
  let n := N_of_ascii c in
  if ((65 <=? n) && (n <=? 90))%N then ascii_of_N (n + 32) else c.

(** [s.toLowerCase()] on the ASCII range. *)
Fixpoint toLowerCase (s : string) : string :=
  match s with
  | EmptyString => EmptyString
  | String c s' => String (lower_ascii c) (toLowerCase s')
  end.

(** The longest prefix without [;], the capture [([^;]+)] taken greedily. *)
Fixpoint non_semicolons (s : string) : string :=
  match s with
  | EmptyString => EmptyString
  | String c s' =>
      if Ascii.eqb c ";" then EmptyString else String c (non_semicolons s')
  end.

Definition drop5 (s : string) : string :=
  String.substring 5 (String.length s - 5) s.

(** [s.match(/data:([^;]+)/)]: the first capture group of the leftmost
    match, [None] when the expression does not match ([null]). *)
Fixpoint match_data (s : string) : option string :=
  match s with
  | EmptyString => None
  | String _ s' =>
      if startsWith s "data:" then
        match non_semicolons (drop5 s) with
        | EmptyString => match_data s'
        | g => Some g
        end
      else match_data s'
  end.

(** *** Buffers *)

Definition byte_of_N (n : N) : Byte.byte :=
  match Byte.of_N (n mod 256) with Some b => b | None => Byte.x00 end.

Definition hex_digit (n : N) : ascii :=
  if (n <? 10)%N then ascii_of_N (48 + n) else ascii_of_N (87 + n).

(** [buf.toString('hex')] *)
Fixpoint toHex (buf : list Byte.byte) : string :=
  match buf with
  | [] => EmptyString
  | b :: bs =>
      let n := Byte.to_N b in
      String (hex_digit (n / 16)) (String (hex_digit (n mod 16)) (toHex bs))
  end.

(** The value of a base64 digit; both the standard and the URL-safe
    alphabet are read, as Node's decoder does. *)
Definition sextet (c : ascii) : option N :=
  let n := N_of_ascii c in
  if ((65 <=? n) && (n <=? 90))%N then Some (n - 65)%N
  else if ((97 <=? n) && (n <=? 122))%N then Some (n - 71)%N
  else if ((48 <=? n) && (n <=? 57))%N then Some (n + 4)%N
  else if ((n =? 43) || (n =? 45))%N then Some 62%N
  else if ((n =? 47) || (n =? 95))%N then Some 63%N
  else None.

(** The digits of a payload: decoding stops at the first [=], characters
    outside the alphabet are skipped. *)
Fixpoint sextets (s : string) : list N :=
  match s with
  | EmptyString => []
  | String c s' =>
      if Ascii.eqb c "=" then []
      else match sextet c with
           | Some v => v :: sextets s'
           | None => sextets s'
           end
  end.

Fixpoint decode_sextets (l : list N) : list Byte.byte :=
  match l with
  | a :: b :: c :: d :: rest =>
      byte_of_N (a * 4 + b / 16)
        :: byte_of_N ((b mod 16) * 16 + c / 4)
        :: byte_of_N ((c mod 4) * 64 + d)
        :: decode_sextets rest
  | [a; b; c] =>
      [byte_of_N (a * 4 + b / 16); byte_of_N ((b mod 16) * 16 + c / 4)]
  | [a; b] => [byte_of_N (a * 4 + b / 16)]
  | _ => []
  end.

(** [Buffer.from(s, 'base64')] *)
Definition fromBase64 (s : string) : list Byte.byte :=
  decode_sextets (sextets s).

(** *** Object literals *)

(** The members every object literal inherits from [Object.prototype],
    each with the text [String(value)] gives for it, which is what a
    template literal or a response header receives. All of them are
    truthy. *)
Definition objectPrototype : gmap string string :=
  list_to_map
    [("constructor", "function Object() { [native code] }");
     ("__proto__", "[object Object]");
     ("hasOwnProperty", "function hasOwnProperty() { [native code] }");
     ("isPrototypeOf", "function isPrototypeOf() { [native code] }");
     ("propertyIsEnumerable", "function propertyIsEnumerable() { [native code] }");
     ("toLocaleString", "function toLocaleString() { [native code] }");
     ("toString", "function toString() { [native code] }");
     ("valueOf", "function valueOf() { [native code] }");
     ("__defineGetter__", "function __defineGetter__() { [native code] }");
     ("__defineSetter__", "function __defineSetter__() { [native code] }");
     ("__lookupGetter__", "function __lookupGetter__() { [native code] }");
     ("__lookupSetter__", "function __lookupSetter__() { [native code] }")].

(** [literal[key] || fallback] for a literal whose own members are the
    strings [own]: an own member when it is truthy, otherwise a member
    found on [Object.prototype], otherwise the fallback. *)
Definition memberOr (own : gmap string string) (key fallback : string) : string :=
  match own !! key with
  | Some v => if truthy v then v else fallback
  | None =>
      match objectPrototype !! key with
      | Some inherited => inherited
      | None => fallback
      end
  end.

End JS.

(** ** Media descriptors

    The element type of the lists handled by both services:
    [{ type: string; url: string; thumbnailUrl?: string }]. *)

Module Media.

Record t : Type := Build
  { type : string;
    url : string;
    thumbnailUrl : option string }.

End Media.

(** ** server/media-storage.ts *)

Module MediaStorage.

Record MediaFile : Type :=
  { id : string;
    originalName : string;
    type : string;
    mimeType : string;
    size : nat;
    url : string;
    thumbnailUrl : option string }.

(** The world the service runs in: the content of the uploads directory
    ([None] when the directory does not exist), keyed by file name, and
    the number of random draws made so far. *)
Record World : Type :=
  { disk : option (gmap string (list Byte.byte));
    draws : nat }.

(** [existsSync(join(uploadsDir, fileName))] *)
Definition existsSync (w : World) (fileName : string) : bool :=
  match disk w with
  | Some fs => bool_decide (is_Some (fs !! fileName))
  | None => false
  end.

(** [writeFile(join(uploadsDir, fileName), buffer)]: rejected with ENOENT
    when the directory is missing. *)
Definition writeFile (fileName : string) (buffer : list Byte.byte) : M World unit :=
  fun w =>
    match disk w with
    | Some fs => (Ok tt, {| disk := Some (<[fileName := buffer]> fs); draws := draws w |})
    | None => (Throw (SystemError "ENOENT"), w)
    end.

(** [readFile(join(uploadsDir, fileName))] *)
Definition readFile (fileName : string) : M World (list Byte.byte) :=
  fun w =>
    match disk w with
    | Some fs =>
        match fs !! fileName with
        | Some buffer => (Ok buffer, w)
        | None => (Throw (SystemError "ENOENT"), w)
        end
    | None => (Throw (SystemError "ENOENT"), w)
    end.

(** The constructor's [ensureDirectories]: a failing [mkdir] is logged and
    swallowed. *)
Definition ensureDirectories (mkdir_ok : bool) (w : World) : World :=
  match disk w with
  | Some _ => w
  | None => if mkdir_ok then {| disk := Some ∅; draws := draws w |} else w
  end.

Section Service.

(** [randomBytes(8)], as a function of the number of earlier draws; the
    value is read as eight bytes, most significant first. *)
Variable entropy : nat -> N.

Fixpoint bytes_of_N (len : nat) (n : N) : list Byte.byte :=
  match len with
  | O => []
  | S len' => bytes_of_N len' (n / 256) ++ [JS.byte_of_N n]
  end.

Definition randomBytes (len : nat) : M World (list Byte.byte) :=
  fun w =>
    (Ok (bytes_of_N len (entropy (draws w))),
     {| disk := disk w; draws := S (draws w) |}).

Definition generateMediaId : M World string :=
  buf <- randomBytes 8 ;; ret (JS.toHex buf).

Definition mimeToExt : gmap string string :=
  list_to_map
    [("image/jpeg", "jpg"); ("image/jpg", "jpg"); ("image/png", "png");
     ("image/gif", "gif"); ("image/webp", "webp"); ("video/mp4", "mp4");
     ("video/webm", "webm"); ("video/quicktime", "mov")].

(** [mimeToExt[mimeType] || 'bin']: the lookup also finds the members
    the literal inherits, so that [constructor] is given the extension
    [function Object() { [native code] }]. *)
Definition getFileExtension (mimeType : string) : string :=
  JS.memberOr mimeToExt mimeType "bin".

(** [Buffer.from(base64Data, 'base64')]: a [TypeError] when the data URL
    has no comma, so that [base64Data] is [undefined]. *)
Definition bufferFrom (base64Data : option string) : M World (list Byte.byte) :=
  match base64Data with
  | Some data => ret (JS.fromBase64 data)
  | None => throw (TypeError "The first argument must be of type string")
  end.

Definition storeMedia (dataUrl originalName mimeType : string) : M World MediaFile :=
  mediaId <- generateMediaId ;;
  let isImage := JS.startsWith mimeType "image/" in
  let isVideo := JS.startsWith mimeType "video/" in
  let base64Data := nth_error (JS.split "," dataUrl) 1 in
  buffer <- bufferFrom base64Data ;;
  let ext := getFileExtension mimeType in
  let fileName := mediaId ++ "." ++ ext in
  writeFile fileName buffer ;;;
  let mediaFile :=
    {| id := mediaId;
       originalName := originalName;
       type := if isImage then "image" else "video";
       mimeType := mimeType;
       size := List.length buffer;
       url := "/uploads/" ++ fileName;
       thumbnailUrl :=
         if isVideo
         then Some ("/uploads/thumbnails/" ++ (mediaId ++ "_thumb") ++ ".jpg")
         else None |} in
  ret mediaFile.

Definition extensions : list string :=
  ["jpg"; "jpeg"; "png"; "gif"; "webp"; "mp4"; "webm"; "mov"].

Definition findMediaFile (mediaId : string) : M World (list string) :=
  fun w =>
    (Ok (List.filter (existsSync w)
           (List.map (fun ext => mediaId ++ "." ++ ext) extensions)), w).

(** [getMedia]: [None] is the [null] of the source. *)
Definition getMedia (mediaId : string) : M World (option (list Byte.byte)) :=
  try_catch
    (files <- findMediaFile mediaId ;;
     match files with
     | [] => ret None
     | file0 :: _ => buffer <- readFile file0 ;; ret (Some buffer)
     end)
    (fun error => ret None).

(** The MIME type read off a data URL by [processMediaUrls]. *)
Definition mimeOf (mediaUrl : string) : string :=
  match JS.match_data mediaUrl with
  | Some mimeMatch1 => mimeMatch1
  | None => "image/jpeg"
  end.

(** One turn of the [for ... of] loop of [processMediaUrls]: the entry
    pushed on [optimizedUrls]. *)
Definition processEntry (media : Media.t) : M World Media.t :=
  if JS.startsWith (Media.url media) "data:" then
    let mimeType := mimeOf (Media.url media) in
    try_catch
      (optimizedMedia <- storeMedia (Media.url media) "upload" mimeType ;;
       ret {| Media.type := type optimizedMedia;
              Media.url := url optimizedMedia;
              Media.thumbnailUrl := thumbnailUrl optimizedMedia |})
      (fun error => ret media)
  else ret media.

Definition processMediaUrls (mediaUrls : list Media.t) : M World (list Media.t) :=
  forOfPush processEntry mediaUrls [].

End Service.

End MediaStorage.

(** ** CloudMediaService (./cloud-media) *)

Module CloudMedia.

Record CloudMediaResult : Type :=
  { url : string;
    thumbnailUrl : option string;
    deleteUrl : option string;
    id : string }.

(** The [data] member of a provider reply: [url], [thumb?.url],
    [medium?.url], [delete_url] and [id]. *)
Record ImgbbData : Type :=
  { data_url : string;
    data_thumb_url : option string;
    data_medium_url : option string;
    data_delete_url : option string;
    data_id : string }.

(** A parsed reply body: the truthiness of [success], [error?.message],
    and [data] when the reply has one. *)
Record ImgbbReply : Type :=
  { success : bool;
    error_message : option string;
    data : option ImgbbData }.

(** An HTTP response: [json] is [None] when [response.json()] rejects,
    the body not being JSON. *)
Record Response : Type :=
  { status : Z;
    text : string;
    json : option ImgbbReply }.

(** [response.ok]: the status is in the range 200-299. *)
Definition ok (r : Response) : bool :=
  ((200 <=? status r) && (status r <=? 299))%Z.

Inductive FetchOutcome : Type :=
| Rejected (reason : string)     (* network failure *)
| Resolved (response : Response).

Definition FormData : Type := list (string * string).

(** The world of the cloud service: the requests sent so far, oldest
    first. *)
Record World : Type := { requests : list FormData }.

Section Service.

(** [process.env.IMGBB_API_KEY] *)
Variable imgbbApiKey : option string.

(** The network: the outcome of a POST to the provider, as a function of
    the number of earlier requests and of the form sent. *)
Variable network : nat -> FormData -> FetchOutcome.

Definition configured : bool := JS.truthy_opt imgbbApiKey.

(** [fetch(this.imgbbBaseUrl, { method: 'POST', body: formData })] *)
Definition fetch (formData : FormData) : M World Response :=
  fun w =>
    let w' := {| requests := requests w ++ [formData] |} in
    match network (List.length (requests w)) formData with
    | Rejected reason => (Throw (FetchError reason), w')
    | Resolved response => (Ok response, w')
    end.

(** [response.json()] *)
Definition responseJson (response : Response) : M World ImgbbReply :=
  match json response with
  | Some reply => ret reply
  | None => throw (JsError "Unexpected token in JSON")
  end.

(** [result.data.<member>]: a [TypeError] when [result.data] is missing. *)
Definition resultData (reply : ImgbbReply) : M World ImgbbData :=
  match data reply with
  | Some d => ret d
  | None => throw (TypeError "Cannot read properties of undefined")
  end.

(** [String(v)] of a possibly undefined string. *)
Definition toString (v : option string) : string :=
  match v with Some s => s | None => "undefined" end.

(** The form posted by [uploadImage]: [key], [image] (the text after the
    first comma of the data URL) and [name] when given. *)
Definition buildForm (key dataUrl : string) (name : option string) : FormData :=
  let base64Data := nth_error (JS.split "," dataUrl) 1 in
  ([("key", key); ("image", toString base64Data)]
     ++ (if JS.truthy_opt name then [("name", toString name)] else []))%list.

Definition uploadImage (dataUrl : string) (name : option string)
  : M World CloudMediaResult :=
  match imgbbApiKey with
  | Some key =>
      if JS.truthy key then
        try_catch
          (let formData := buildForm key dataUrl name in
           response <- fetch formData ;;
           (if negb (ok response)
            then throw (JsError ("ImgBB upload failed: " ++ pretty (status response)
                                   ++ " " ++ text response))
            else ret tt) ;;;
           result <- responseJson response ;;
           (if negb (success result)
            then throw (JsError ("ImgBB API error: "
                                   ++ toString (JS.or_else (error_message result)
                                                           (Some "Upload failed"))))
            else ret tt) ;;;
           d <- resultData result ;;
           ret {| url := data_url d;
                  thumbnailUrl := JS.or_else (data_thumb_url d) (data_medium_url d);
                  deleteUrl := data_delete_url d;
                  id := data_id d |})
          (fun error => throw error)
      else throw (JsError "IMGBB_API_KEY not configured")
  | None => throw (JsError "IMGBB_API_KEY not configured")
  end.

Definition uploadVideo (dataUrl : string) : M World CloudMediaResult :=
  throw (JsError "Video upload to cloud not implemented - using local storage").

(** One turn of the [for ... of] loop of [processMediaUrls]: the entry
    pushed on [optimizedUrls]. *)
Definition processEntry (media : Media.t) : M World Media.t :=
  if JS.startsWith (Media.url media) "data:" then
    try_catch
      (if String.eqb (Media.type media) "image" then
         cloudResult <- uploadImage (Media.url media) None ;;
         ret {| Media.type := Media.type media;
                Media.url := url cloudResult;
                Media.thumbnailUrl := thumbnailUrl cloudResult |}
       else ret media)
      (fun error => ret media)
  else ret media.

Definition processMediaUrls (mediaUrls : list Media.t) : M World (list Media.t) :=
  forOfPush processEntry mediaUrls [].

Definition optimizeUrl (dataUrl type : string) : M World string :=
  if negb (JS.startsWith dataUrl "data:") then ret dataUrl
  else if String.eqb type "image" then
    result <- uploadImage dataUrl None ;; ret (url result)
  else ret dataUrl.

End Service.

End CloudMedia.

(** ** server/routes.ts: GET /uploads/:filename *)

Module Routes.

Inductive Body : Type :=
| Json (message : string)        (* res.json({ message }) *)
| Send (buffer : list Byte.byte). (* res.send(buffer) *)

(** What the handler puts on [res]: the status (200 unless [res.status]
    is called), the headers it sets itself, and the body. *)
Record Res : Type :=
  { statusCode : Z;
    headers : list (string * string);
    body : Body }.

Definition contentTypes : gmap string string :=
  list_to_map
    [("jpg", "image/jpeg"); ("jpeg", "image/jpeg"); ("png", "image/png");
     ("gif", "image/gif"); ("webp", "image/webp"); ("mp4", "video/mp4");
     ("webm", "video/webm"); ("mov", "video/quicktime")].

(** [{...}[ext || ''] || 'application/octet-stream']: the lookup also
    finds the members the literal inherits, and the header is then the
    text of that member. *)
Definition contentTypeOf (ext : option string) : string :=
  let key := match ext with
             | Some e => if JS.truthy e then e else ""
             | None => ""
             end in
  JS.memberOr contentTypes key "application/octet-stream".

(** [filename.split('.')[0]]; [split] never returns an empty array. *)
Definition mediaIdOf (filename : string) : string :=
  List.hd "" (JS.split "." filename).

(** [filename.split('.').pop()?.toLowerCase()] *)
Definition extOf (filename : string) : option string :=
  JS.toLowerCase <$> JS.pop (JS.split "." filename).

Definition getUploads (filename : string) : M MediaStorage.World Res :=
  try_catch
    (let mediaId := mediaIdOf filename in
     mediaBuffer <- MediaStorage.getMedia mediaId ;;
     match mediaBuffer with
     | None =>
         ret {| statusCode := 404; headers := [];
                body := Json "Media not found" |}
     | Some buffer =>
         let ext := extOf filename in
         let contentType := contentTypeOf ext in
         ret {| statusCode := 200;
                headers := [("Content-Type", contentType);
                            ("Cache-Control", "public, max-age=31536000")];
                body := Send buffer |}
     end)
    (fun error =>
       ret {| statusCode := 500; headers := [];
              body := Json "Failed to serve media" |}).

(** The value of a header of the response, if the handler set it. *)
Definition getHeader (res : Res) (name : string) : option string :=
  snd <$> List.find (fun h => String.eqb (fst h) name) (headers res).

End Routes.

(** ** client/src/components/posts/media-upload.tsx: processFile *)

Module MediaUpload.

(** A [File] as the browser presents it to [processFile]: its MIME type
    and size, what loading it into an [Image] gives (the natural width and
    height, or [None] when [onerror] fires) and what [FileReader] reads
    (the data URL, or [None] when [onerror] fires). *)
Record File : Type :=
  { file_type : string;
    file_size : N;
    image : option (N * N);
    dataURL : option string }.

(** Data URLs, by the way they were made. *)
Inductive DataUrl : Type :=
| Canvas (width height : N) (mime : string) (quality : Q)
    (* canvas.toDataURL(mime, quality) on a canvas of that size *)
| Reader (result : string).
    (* reader.readAsDataURL(file) *)

Record MediaFile : Type :=
  { type : string;
    url : DataUrl;
    thumbnailUrl : option DataUrl;
    file : File }.

(** The dimensions given to the canvas. The source computes the quotient
    in floating point and the canvas truncates it; on image dimensions the
    result is the integer quotient. *)
Definition newDimensions (width height : N) : N * N :=
  let maxWidth := 800%N in
  let maxHeight := 800%N in
  if (height <? width)%N then
    if (maxWidth <? width)%N
    then (maxWidth, (height * maxWidth) / width)%N
    else (width, height)
  else
    if (maxHeight <? height)%N
    then ((width * maxHeight) / height, maxHeight)%N
    else (width, height).

(** [new Image()]. The component imports [Image] from lucide-react
    (line 4), which hides the constructor of the browser: the name is an
    icon component, and calling it with [new] raises a [TypeError]. *)
Definition newImage : result unit :=
  Throw (TypeError "Image is not a constructor").

(** [processFile]: how the returned promise settles. [Ok None] is a
    promise resolved with [null]; an exception raised in the executor
    rejects the promise. *)
Definition processFile (f : File) : result (option MediaFile) :=
  if JS.startsWith (file_type f) "image/" && (1024 * 1024 <? file_size f)%N then
    match newImage with
    | Throw e => Throw e
    | Ok _ =>
        (* img.onload and img.onerror *)
        match image f with
        | Some (width, height) =>
            let (width', height') := newDimensions width height in
            Ok (Some {| type := "image";
                        url := Canvas width' height' "image/jpeg" (8 # 10);
                        thumbnailUrl := None;
                        file := f |})
        | None => Ok None
        end
    end
  else
    match dataURL f with
    | Some result =>
        if JS.truthy result then
          let type := if JS.startsWith (file_type f) "image/" then "image" else "video" in
          Ok (Some {| type := type;
                      url := Reader result;
                      thumbnailUrl :=
                        if String.eqb type "video" then Some (Reader result) else None;
                      file := f |})
        else Ok None
    | None => Ok None
    end.

End MediaUpload.

(** ** Buffers as base64 text *)

Module Buffer.

Definition alphabet : string :=
  "ABCDEFGHIJKLMNOPQRSTUVWXYZabcdefghijklmnopqrstuvwxyz0123456789+/".

(** The base64 digit of a six-bit value. *)
Definition digit (v : N) : ascii :=
  match String.get (N.to_nat v) alphabet with
  | Some c => c
  | None => "="%char
  end.

(** [buf.toString('base64')]: three bytes give four digits, and a last
    group of one or two bytes is padded with [=]. *)
Fixpoint toBase64 (buf : list Byte.byte) : string :=
  match buf with
  | a :: b :: c :: rest =>
      let x := Byte.to_N a in
      let y := Byte.to_N b in
      let z := Byte.to_N c in
      String (digit (x / 4))
        (String (digit ((x mod 4) * 16 + y / 16))
           (String (digit ((y mod 16) * 4 + z / 64))
              (String (digit (z mod 64)) (toBase64 rest))))
  | [a; b] =>
      let x := Byte.to_N a in
      let y := Byte.to_N b in
      String (digit (x / 4))
        (String (digit ((x mod 4) * 16 + y / 16))
           (String (digit ((y mod 16) * 4)) "="))
  | [a] =>
      let x := Byte.to_N a in
      String (digit (x / 4)) (String (digit ((x mod 4) * 16)) "==")
  | [] => ""
  end.

End Buffer.

(** ** server/routes.ts: the attachments of POST /api/admin/send-announcement *)

Module Announcement.

(** A file as multer's memory storage hands it to the handler. *)
Record File : Type :=
  { mimetype : string;
    originalname : string;
    buffer : list Byte.byte }.

(** The [fileFilter] of the multer configuration: [true] accepts the
    file, [false] rejects the upload with an error. *)
Definition fileFilter (file : File) : bool :=
  JS.startsWith (mimetype file) "image/" || JS.startsWith (mimetype file) "video/".

(** [`data:${file.mimetype};base64,${file.buffer.toString('base64')}`] *)
Definition dataUrlOf (file : File) : string :=
  "data:" ++ mimetype file ++ ";base64," ++ Buffer.toBase64 (buffer file).

Section Handler.

Variable imgbbApiKey : option string.
Variable network : nat -> CloudMedia.FormData -> CloudMedia.FetchOutcome.

(** One turn of the loop over [req.files]: [mediaUrls] after the turn. A
    failed upload is logged and the file is left out. *)
Definition attach (mediaUrls : list Media.t) (file : File)
  : M CloudMedia.World (list Media.t) :=
  try_catch
    (let dataUrl := dataUrlOf file in
     if JS.startsWith (mimetype file) "image/" then
       result <- CloudMedia.uploadImage imgbbApiKey network dataUrl
                   (Some (originalname file)) ;;
       ret (mediaUrls ++ [{| Media.type := "image";
                             Media.url := CloudMedia.url result;
                             Media.thumbnailUrl := CloudMedia.thumbnailUrl result |}])%list
     else if JS.startsWith (mimetype file) "video/" then
       result <- CloudMedia.uploadVideo dataUrl ;;
       ret (mediaUrls ++ [{| Media.type := "video";
                             Media.url := CloudMedia.url result;
                             Media.thumbnailUrl := CloudMedia.thumbnailUrl result |}])%list
     else ret mediaUrls)
    (fun error => ret mediaUrls).

Fixpoint attachAll (files : list File) (mediaUrls : list Media.t)
  : M CloudMedia.World (list Media.t) :=
  match files with
  | [] => ret mediaUrls
  | file :: rest =>
      mediaUrls' <- attach mediaUrls file ;; attachAll rest mediaUrls'
  end.

(** [let mediaUrls = []; if (files && files.length > 0) { for ... }];
    [None] is a request without files. *)
Definition collectMedia (files : option (list File))
  : M CloudMedia.World (list Media.t) :=
  match files with
  | Some (file :: rest) => attachAll (file :: rest) []
  | _ => ret []
  end.

End Handler.

End Announcement.

(** ** client/src/components/posts/media-upload.tsx: the selection *)

Module Selection.

(** The loop of [handleFileSelect] over the picked files; it stops as soon
    as the selection is full, and its [try]/[catch] logs a rejected
    [processFile] and goes on with the next file. The maximum is a count of
    files. *)
Fixpoint pick (maxFiles : nat) (selectedMedia : list MediaUpload.MediaFile)
    (files : list MediaUpload.File) (newMediaFiles : list MediaUpload.MediaFile)
  : list MediaUpload.MediaFile :=
  match files with
  | [] => newMediaFiles
  | file :: rest =>
      if (maxFiles <=? List.length selectedMedia + List.length newMediaFiles)%nat
      then newMediaFiles
      else match MediaUpload.processFile file with
           | Ok (Some mediaFile) =>
               pick maxFiles selectedMedia rest (newMediaFiles ++ [mediaFile])%list
           | Ok None => pick maxFiles selectedMedia rest newMediaFiles
           | Throw error => pick maxFiles selectedMedia rest newMediaFiles
           end
  end.

(** [handleFileSelect]: the list given to [onMediaSelect], [None] when the
    handler returns without calling it (no file picked). *)
Definition handleFileSelect (maxFiles : nat)
    (selectedMedia : list MediaUpload.MediaFile) (files : list MediaUpload.File)
  : option (list MediaUpload.MediaFile) :=
  match files with
  | [] => None
  | _ => Some (selectedMedia ++ pick maxFiles selectedMedia files [])%list
  end.

(** [a.filter((_, i) => keep(i))], counting from [i]. *)
Fixpoint filterIndex {A : Type} (keep : nat -> bool) (a : list A) (i : nat) : list A :=
  match a with
  | [] => []
  | x :: rest =>
      if keep i then x :: filterIndex keep rest (S i) else filterIndex keep rest (S i)
  end.

(** [removeMedia]: the list given to [onMediaSelect]. *)
Definition removeMedia (selectedMedia : list MediaUpload.MediaFile) (index : nat)
  : list MediaUpload.MediaFile :=
  filterIndex (fun i => negb (i =? index)%nat) selectedMedia 0.

(** The default of the [maxFiles] property. *)
Definition defaultMaxFiles : nat := 5.

(** The entry a picked file adds to the selection, if any: none when
    [processFile] rejects or resolves with [null]. *)
Definition added (file : MediaUpload.File) : option MediaUpload.MediaFile :=
  match MediaUpload.processFile file with
  | Ok mediaFile => mediaFile
  | Throw _ => None
  end.

End Selection.

(** ** Vocabulary of the statements *)

(** The entry's [url] is a data URL, in the sense tested by both services. *)
Definition isDataUrl (media : Media.t) : bool :=
  JS.startsWith (Media.url media) "data:".

(** [pushed] is the descriptor of a file stored from the data URL of
    [media] by the local service. *)
Definition storedFrom (entropy : nat -> N) (media pushed : Media.t) : Prop :=
  exists f w1 w2,
    MediaStorage.storeMedia entropy (Media.url media) "upload"
      (MediaStorage.mimeOf (Media.url media)) w1 = (Ok f, w2)
    /\ pushed = {| Media.type := MediaStorage.type f;
                   Media.url := MediaStorage.url f;
                   Media.thumbnailUrl := MediaStorage.thumbnailUrl f |}.

(** [pushed] is [media] with its links replaced by those of an upload of
    its data URL by the cloud service. *)
Definition uploadedFrom (imgbbApiKey : option string)
    (network : nat -> CloudMedia.FormData -> CloudMedia.FetchOutcome)
    (media pushed : Media.t) : Prop :=
  exists r w1 w2,
    CloudMedia.uploadImage imgbbApiKey network (Media.url media) None w1 = (Ok r, w2)
    /\ pushed = {| Media.type := Media.type media;
                   Media.url := CloudMedia.url r;
                   Media.thumbnailUrl := CloudMedia.thumbnailUrl r |}.

(** A descriptor made from a stored file, as [processMediaUrls] of the
    local service builds it. *)
Definition descriptorOf (f : MediaStorage.MediaFile) : Media.t :=
  {| Media.type := MediaStorage.type f;
     Media.url := MediaStorage.url f;
     Media.thumbnailUrl := MediaStorage.thumbnailUrl f |}.

(** An empty uploads directory before any draw, and a random source that
    always draws zero: the data of the worked examples. *)
Definition freshDisk : MediaStorage.World :=
  {| MediaStorage.disk := Some ∅; MediaStorage.draws := 0 |}.

Definition zeroEntropy : nat -> N := fun _ => 0%N.

(** * Properties *)

Local Open Scope list_scope.

(** ** The loop *)

Section Loop.

Context {W A B : Type} (body : A -> M W B).

Lemma forOfPush_out (items : list A) :
  forall (out : list B) (w : W),
    forOfPush body items out w =
    match forOfPush body items [] w with
    | (Ok outs, w') => (Ok (out ++ outs), w')
    | (Throw e, w') => (Throw e, w')
    end.
Proof.
  induction items as [|a items IH]; intros out w; simpl.
  - unfold ret. now rewrite app_nil_r.
  - unfold bind. destruct (body a w) as [[b|e] w1]; [|reflexivity].
    rewrite (IH (out ++ [b])), (IH ([] ++ [b])).
    destruct (forOfPush body items [] w1) as [[outs|e] w2]; [|reflexivity].
    now rewrite <- app_assoc.
Qed.

Lemma forOfPush_cons (a : A) (items : list A) (w : W) :
  forOfPush body (a :: items) [] w =
  match body a w with
  | (Ok b, w1) =>
      match forOfPush body items [] w1 with
      | (Ok outs, w2) => (Ok (b :: outs), w2)
      | (Throw e, w2) => (Throw e, w2)
      end
  | (Throw e, w1) => (Throw e, w1)
  end.
Proof.
  simpl. unfold bind. destruct (body a w) as [[b|e] w1]; [|reflexivity].
  now rewrite forOfPush_out.
Qed.

Lemma runs_forOfPush (w w' : W) (items : list A) (outs : list B) :
  runs body w items outs w' -> forOfPush body items [] w = (Ok outs, w').
Proof.
  induction 1 as [w|w a b w1 items outs w2 Hb _ IH]; [reflexivity|].
  now rewrite forOfPush_cons, Hb, IH.
Qed.

Lemma forOfPush_runs (Htotal : total body) (items : list A) :
  forall w : W, exists outs w',
    forOfPush body items [] w = (Ok outs, w') /\ runs body w items outs w'.
Proof.
  induction items as [|a items IH]; intros w.
  - exists [], w. split; [reflexivity|constructor].
  - destruct (Htotal a w) as (b & w1 & Hb).
    destruct (IH w1) as (outs & w2 & Hrun & Hruns).
    exists (b :: outs), w2. split.
    + now rewrite forOfPush_cons, Hb, Hrun.
    + econstructor; eassumption.
Qed.

Lemma runs_length (w w' : W) (items : list A) (outs : list B) :
  runs body w items outs w' -> length outs = length items.
Proof. induction 1; simpl; congruence. Qed.

(** Turn [i] of a run starts in [worldAt body items i w] and pushes what
    the body returns there. *)
Lemma runs_lookup (w w' : W) (items : list A) (outs : list B) :
  runs body w items outs w' ->
  forall (i : nat) (a : A),
    items !! i = Some a ->
    exists b wi', body a (worldAt body items i w) = (Ok b, wi') /\ outs !! i = Some b.
Proof.
  induction 1 as [w|w a0 b0 w1 items outs w2 Hb Hruns IH]; intros i a Hi.
  - discriminate.
  - destruct i as [|i]; simpl in Hi.
    + inversion Hi; subst a. exists b0, w1. split; [exact Hb|reflexivity].
    + destruct (IH i a Hi) as (b & wi' & Hbody & Hout).
      exists b, wi'. split; [|exact Hout].
      unfold worldAt in *. simpl take.
      rewrite forOfPush_cons, Hb.
      assert (Hpre : runs body w1 (take i items) (take i outs) (worldAt body items i w1)).
      { clear -Hruns. unfold worldAt. revert i.
        induction Hruns as [w|w a b w1 items outs w2 Hb Hruns IH]; intros i.
        - destruct i; constructor.
        - destruct i as [|i]; [constructor|].
          simpl take. rewrite forOfPush_cons, Hb.
          specialize (IH i). rewrite (runs_forOfPush _ _ _ _ IH) in *.
          simpl. econstructor; eassumption. }
      apply runs_forOfPush in Hpre. unfold worldAt in Hpre.
      destruct (forOfPush body (take i items) [] w1) as [[o|e] wx]; [|discriminate].
      exact Hbody.
Qed.

Lemma runs_Forall2 (P : A -> B -> Prop) (w w' : W) (items : list A) (outs : list B) :
  (forall a b w1 w2, body a w1 = (Ok b, w2) -> P a b) ->
  runs body w items outs w' -> Forall2 P items outs.
Proof.
  intros HP. induction 1; constructor; eauto.
Qed.

End Loop.

Lemma runs_identity {W A : Type} (body : A -> M W A) (w w' : W) (items outs : list A) :
  runs body w items outs w' ->
  (forall i a, items !! i = Some a -> outs !! i = Some a) ->
  outs = items.
Proof.
  intros Hruns Hsame. apply list_eq. intros i.
  destruct (items !! i) as [a|] eqn:Hi.
  - now apply Hsame.
  - apply lookup_ge_None. apply lookup_ge_None in Hi.
    rewrite (runs_length _ _ _ _ _ Hruns). exact Hi.
Qed.

(** ** The local storage service *)

Section MediaStorageFacts.

Variable entropy : nat -> N.

Local Abbreviation storeMedia := (MediaStorage.storeMedia entropy).
Local Abbreviation processEntry := (MediaStorage.processEntry entropy).
Local Abbreviation processMediaUrls := (MediaStorage.processMediaUrls entropy).

(** [storeMedia] spelled out: the identifier comes from the next draw, the
    call throws exactly when the data URL has no comma or the uploads
    directory is missing, and otherwise writes one file. *)
Lemma storeMedia_unfold (dataUrl originalName mimeType : string) (w : MediaStorage.World) :
  storeMedia dataUrl originalName mimeType w =
  let mediaId := JS.toHex (MediaStorage.bytes_of_N 8 (entropy (MediaStorage.draws w))) in
  let w1 := {| MediaStorage.disk := MediaStorage.disk w;
               MediaStorage.draws := S (MediaStorage.draws w) |} in
  match nth_error (JS.split "," dataUrl) 1 with
  | None => (Throw (TypeError "The first argument must be of type string"), w1)
  | Some base64Data =>
      let fileName := (mediaId ++ "." ++ MediaStorage.getFileExtension mimeType)%string in
      match MediaStorage.disk w with
      | None => (Throw (SystemError "ENOENT"), w1)
      | Some fs =>
          (Ok {| MediaStorage.id := mediaId;
                 MediaStorage.originalName := originalName;
                 MediaStorage.type :=
                   if JS.startsWith mimeType "image/" then "image" else "video";
                 MediaStorage.mimeType := mimeType;
                 MediaStorage.size := length (JS.fromBase64 base64Data);
                 MediaStorage.url := ("/uploads/" ++ fileName)%string;
                 MediaStorage.thumbnailUrl :=
                   if JS.startsWith mimeType "video/"
                   then Some ("/uploads/thumbnails/" ++ (mediaId ++ "_thumb") ++ ".jpg")%string
                   else None |},
           {| MediaStorage.disk := Some (<[fileName := JS.fromBase64 base64Data]> fs);
              MediaStorage.draws := S (MediaStorage.draws w) |})
      end
  end.
Proof.
  unfold MediaStorage.storeMedia, MediaStorage.generateMediaId,
    MediaStorage.randomBytes, MediaStorage.bufferFrom, MediaStorage.writeFile,
    bind, ret, throw.
  cbv zeta. cbn [MediaStorage.disk MediaStorage.draws].
  destruct (nth_error (JS.split "," dataUrl) 1) as [base64Data|]; [|reflexivity].
  destruct (MediaStorage.disk w) as [fs|]; reflexivity.
Qed.

Lemma storeMedia_type (dataUrl originalName mimeType : string)
    (w w' : MediaStorage.World) (f : MediaStorage.MediaFile) :
  storeMedia dataUrl originalName mimeType w = (Ok f, w') ->
  MediaStorage.type f = (if JS.startsWith mimeType "image/" then "image" else "video")
  /\ JS.startsWith (MediaStorage.url f) "/uploads/" = true.
Proof.
  rewrite storeMedia_unfold. cbv zeta.
  destruct (nth_error _ 1); [|discriminate].
  destruct (MediaStorage.disk w); [|discriminate].
  intros E; inversion E; subst; clear E. split; reflexivity.
Qed.

Lemma local_entry_plain (media : Media.t) (w : MediaStorage.World) :
  isDataUrl media = false -> processEntry media w = (Ok media, w).
Proof.
  unfold isDataUrl, MediaStorage.processEntry. now intros ->.
Qed.

Lemma local_entry_data (media : Media.t) (w : MediaStorage.World) :
  isDataUrl media = true ->
  processEntry media w =
  match storeMedia (Media.url media) "upload" (MediaStorage.mimeOf (Media.url media)) w with
  | (Ok f, w') =>
      (Ok {| Media.type := MediaStorage.type f;
             Media.url := MediaStorage.url f;
             Media.thumbnailUrl := MediaStorage.thumbnailUrl f |}, w')
  | (Throw _, w') => (Ok media, w')
  end.
Proof.
  unfold isDataUrl, MediaStorage.processEntry. intros ->.
  unfold try_catch, bind, ret.
  now destruct (storeMedia _ _ _ w) as [[f|e] w'].
Qed.

Lemma local_entry_total : total processEntry.
Proof.
  intros media w. destruct (isDataUrl media) eqn:Hd.
  - rewrite (local_entry_data _ _ Hd).
    destruct (storeMedia _ _ _ w) as [[f|e] w']; eauto.
  - rewrite (local_entry_plain _ _ Hd). eauto.
Qed.

Lemma local_entry_cases (media pushed : Media.t) (w w' : MediaStorage.World) :
  processEntry media w = (Ok pushed, w') ->
  pushed = media \/ storedFrom entropy media pushed.
Proof.
  destruct (isDataUrl media) eqn:Hd.
  - rewrite (local_entry_data _ _ Hd).
    destruct (storeMedia _ _ _ w) as [[f|e] w1] eqn:Hs; intros E; inversion E; subst.
    + right. exists f, w, w'. split; [exact Hs|reflexivity].
    + now left.
  - rewrite (local_entry_plain _ _ Hd). intros E; inversion E. now left.
Qed.

Lemma local_runs (mediaUrls : list Media.t) (w : MediaStorage.World) :
  exists out w',
    processMediaUrls mediaUrls w = (Ok out, w')
    /\ runs processEntry w mediaUrls out w'.
Proof. apply forOfPush_runs, local_entry_total. Qed.

End MediaStorageFacts.

(** ** The cloud service *)

Section CloudMediaFacts.

Variable imgbbApiKey : option string.
Variable network : nat -> CloudMedia.FormData -> CloudMedia.FetchOutcome.

Local Abbreviation uploadImage := (CloudMedia.uploadImage imgbbApiKey network).
Local Abbreviation processEntry := (CloudMedia.processEntry imgbbApiKey network).
Local Abbreviation processMediaUrls := (CloudMedia.processMediaUrls imgbbApiKey network).

Lemma cloud_entry_plain (media : Media.t) (w : CloudMedia.World) :
  isDataUrl media = false -> processEntry media w = (Ok media, w).
Proof.
  unfold isDataUrl, CloudMedia.processEntry. now intros ->.
Qed.

Lemma cloud_entry_not_image (media : Media.t) (w : CloudMedia.World) :
  Media.type media <> "image" -> processEntry media w = (Ok media, w).
Proof.
  intros Hty. unfold CloudMedia.processEntry.
  destruct (JS.startsWith _ _); [|reflexivity].
  destruct (String.eqb_spec (Media.type media) "image") as [E|_]; [contradiction|].
  reflexivity.
Qed.

Lemma cloud_entry_image (media : Media.t) (w : CloudMedia.World) :
  isDataUrl media = true -> Media.type media = "image" ->
  processEntry media w =
  match uploadImage (Media.url media) None w with
  | (Ok r, w') =>
      (Ok {| Media.type := Media.type media;
             Media.url := CloudMedia.url r;
             Media.thumbnailUrl := CloudMedia.thumbnailUrl r |}, w')
  | (Throw _, w') => (Ok media, w')
  end.
Proof.
  unfold isDataUrl, CloudMedia.processEntry. intros -> ->.
  cbn [String.eqb Ascii.eqb Bool.eqb]. unfold try_catch, bind, ret.
  now destruct (uploadImage _ None w) as [[r|e] w'].
Qed.

Lemma cloud_entry_total : total processEntry.
Proof.
  intros media w.
  destruct (String.eqb_spec (Media.type media) "image") as [Hty|Hty].
  - destruct (isDataUrl media) eqn:Hd.
    + rewrite (cloud_entry_image _ _ Hd Hty).
      destruct (uploadImage _ None w) as [[r|e] w']; eauto.
    + rewrite (cloud_entry_plain _ _ Hd). eauto.
  - rewrite (cloud_entry_not_image _ _ Hty). eauto.
Qed.

Lemma cloud_entry_cases (media pushed : Media.t) (w w' : CloudMedia.World) :
  processEntry media w = (Ok pushed, w') ->
  pushed = media \/ uploadedFrom imgbbApiKey network media pushed.
Proof.
  destruct (String.eqb_spec (Media.type media) "image") as [Hty|Hty].
  - destruct (isDataUrl media) eqn:Hd.
    + rewrite (cloud_entry_image _ _ Hd Hty).
      destruct (uploadImage _ None w) as [[r|e] w1] eqn:Hu; intros E; inversion E; subst.
      * right. exists r, w, w'. split; [exact Hu|reflexivity].
      * now left.
    + rewrite (cloud_entry_plain _ _ Hd). intros E; inversion E. now left.
  - rewrite (cloud_entry_not_image _ _ Hty). intros E; inversion E. now left.
Qed.

Lemma cloud_runs (mediaUrls : list Media.t) (w : CloudMedia.World) :
  exists out w',
    processMediaUrls mediaUrls w = (Ok out, w')
    /\ runs processEntry w mediaUrls out w'.
Proof. apply forOfPush_runs, cloud_entry_total. Qed.

End CloudMediaFacts.

(** ** Normalization of media lists *)

Lemma local_all_plain (entropy : nat -> N) (mediaUrls : list Media.t)
    (w : MediaStorage.World) :
  Forall (fun media => isDataUrl media = false) mediaUrls ->
  MediaStorage.processMediaUrls entropy mediaUrls w = (Ok mediaUrls, w).
Proof.
  unfold MediaStorage.processMediaUrls.
  induction 1 as [|media rest Hm _ IH]; [reflexivity|].
  now rewrite forOfPush_cons, (local_entry_plain _ _ _ Hm), IH.
Qed.

Lemma cloud_all_plain (imgbbApiKey : option string)
    (network : nat -> CloudMedia.FormData -> CloudMedia.FetchOutcome)
    (mediaUrls : list Media.t) (w : CloudMedia.World) :
  Forall (fun media => isDataUrl media = false) mediaUrls ->
  CloudMedia.processMediaUrls imgbbApiKey network mediaUrls w = (Ok mediaUrls, w).
Proof.
  unfold CloudMedia.processMediaUrls.
  induction 1 as [|media rest Hm _ IH]; [reflexivity|].
  now rewrite forOfPush_cons, (cloud_entry_plain _ _ _ _ Hm), IH.
Qed.

(** C1. For every media list, [processMediaUrls] of the cloud service and
    of the local-storage service returns a list of the same length, and
    the entry at each position of the output comes from the entry at the
    same position of the input: it is that entry itself, or the result of
    uploading (respectively storing) that entry's data URL. *)
Theorem processMediaUrls_length_and_order
    (entropy : nat -> N) (imgbbApiKey : option string)
    (network : nat -> CloudMedia.FormData -> CloudMedia.FetchOutcome)
    (mediaUrls : list Media.t) (wc : CloudMedia.World) (wl : MediaStorage.World) :
  (exists out wc',
      CloudMedia.processMediaUrls imgbbApiKey network mediaUrls wc = (Ok out, wc')
      /\ length out = length mediaUrls
      /\ Forall2 (fun media pushed =>
                    pushed = media \/ uploadedFrom imgbbApiKey network media pushed)
           mediaUrls out)
  /\ (exists out wl',
         MediaStorage.processMediaUrls entropy mediaUrls wl = (Ok out, wl')
         /\ length out = length mediaUrls
         /\ Forall2 (fun media pushed =>
                       pushed = media \/ storedFrom entropy media pushed)
              mediaUrls out).
Proof.
  split.
  - destruct (cloud_runs imgbbApiKey network mediaUrls wc) as (out & wc' & Hrun & Hruns).
    exists out, wc'. repeat split; [exact Hrun| |].
    + eapply runs_length; eassumption.
    + eapply runs_Forall2; [|eassumption].
      intros media pushed w1 w2. apply cloud_entry_cases.
  - destruct (local_runs entropy mediaUrls wl) as (out & wl' & Hrun & Hruns).
    exists out, wl'. repeat split; [exact Hrun| |].
    + eapply runs_length; eassumption.
    + eapply runs_Forall2; [|eassumption].
      intros media pushed w1 w2. apply local_entry_cases.
Qed.

(** C2. In both services, [processMediaUrls] returns every entry whose url
    does not start with [data:] unchanged, at its position; on a list
    without any data URL it is the identity and leaves the world as it
    was, so that processing a normalized list again is a no-op. *)
Theorem processMediaUrls_pass_through
    (entropy : nat -> N) (imgbbApiKey : option string)
    (network : nat -> CloudMedia.FormData -> CloudMedia.FetchOutcome)
    (mediaUrls : list Media.t) (wc : CloudMedia.World) (wl : MediaStorage.World) :
  (exists out wc',
      CloudMedia.processMediaUrls imgbbApiKey network mediaUrls wc = (Ok out, wc')
      /\ (forall i media, mediaUrls !! i = Some media ->
                          JS.startsWith (Media.url media) "data:" = false ->
                          out !! i = Some media)
      /\ (Forall (fun media => JS.startsWith (Media.url media) "data:" = false) mediaUrls ->
          out = mediaUrls /\ wc' = wc))
  /\ (exists out wl',
         MediaStorage.processMediaUrls entropy mediaUrls wl = (Ok out, wl')
         /\ (forall i media, mediaUrls !! i = Some media ->
                             JS.startsWith (Media.url media) "data:" = false ->
                             out !! i = Some media)
         /\ (Forall (fun media => JS.startsWith (Media.url media) "data:" = false) mediaUrls ->
             out = mediaUrls /\ wl' = wl)).
Proof.
  split.
  - destruct (cloud_runs imgbbApiKey network mediaUrls wc) as (out & wc' & Hrun & Hruns).
    exists out, wc'. split; [exact Hrun|]. split.
    + intros i media Hi Hplain.
      destruct (runs_lookup _ _ _ _ _ Hruns i media Hi) as (b & wi' & Hb & Hout).
      rewrite (cloud_entry_plain _ _ _ _ Hplain) in Hb. now inversion Hb; subst.
    + intros Hall. rewrite (cloud_all_plain _ _ _ _ Hall) in Hrun.
      now inversion Hrun.
  - destruct (local_runs entropy mediaUrls wl) as (out & wl' & Hrun & Hruns).
    exists out, wl'. split; [exact Hrun|]. split.
    + intros i media Hi Hplain.
      destruct (runs_lookup _ _ _ _ _ Hruns i media Hi) as (b & wi' & Hb & Hout).
      rewrite (local_entry_plain _ _ _ Hplain) in Hb. now inversion Hb; subst.
    + intros Hall. rewrite (local_all_plain _ _ _ Hall) in Hrun.
      now inversion Hrun.
Qed.

Lemma cloud_entry_recovers (imgbbApiKey : option string)
    (network : nat -> CloudMedia.FormData -> CloudMedia.FetchOutcome)
    (media : Media.t) (w : CloudMedia.World) :
  throws (fst (CloudMedia.uploadImage imgbbApiKey network (Media.url media) None w)) ->
  fst (CloudMedia.processEntry imgbbApiKey network media w) = Ok media.
Proof.
  intros [e He].
  destruct (String.eqb_spec (Media.type media) "image") as [Hty|Hty].
  - destruct (isDataUrl media) eqn:Hd.
    + rewrite (cloud_entry_image _ _ _ _ Hd Hty).
      destruct (CloudMedia.uploadImage _ _ _ None w) as [[r|e'] w1];
        [discriminate|reflexivity].
    + now rewrite (cloud_entry_plain _ _ _ _ Hd).
  - now rewrite (cloud_entry_not_image _ _ _ _ Hty).
Qed.

Lemma local_entry_recovers (entropy : nat -> N) (media : Media.t)
    (w : MediaStorage.World) :
  throws (fst (MediaStorage.storeMedia entropy (Media.url media) "upload"
                 (MediaStorage.mimeOf (Media.url media)) w)) ->
  fst (MediaStorage.processEntry entropy media w) = Ok media.
Proof.
  intros [e He]. destruct (isDataUrl media) eqn:Hd.
  - rewrite (local_entry_data _ _ _ Hd).
    destruct (MediaStorage.storeMedia _ _ _ _ w) as [[f|e'] w1];
      [discriminate|reflexivity].
  - now rewrite (local_entry_plain _ _ _ Hd).
Qed.

(** C5. In both services [processMediaUrls] returns normally whatever the
    individual uploads or stores do. At every position whose upload
    (respectively store) throws, the output holds the original entry; and
    when it throws at every position, the returned list is the input
    list. *)
Theorem processMediaUrls_recovers_per_item
    (entropy : nat -> N) (imgbbApiKey : option string)
    (network : nat -> CloudMedia.FormData -> CloudMedia.FetchOutcome)
    (mediaUrls : list Media.t) (wc : CloudMedia.World) (wl : MediaStorage.World) :
  let uploadThrowsAt i media :=
    throws (fst (CloudMedia.uploadImage imgbbApiKey network (Media.url media) None
                   (worldAt (CloudMedia.processEntry imgbbApiKey network) mediaUrls i wc))) in
  let storeThrowsAt i media :=
    throws (fst (MediaStorage.storeMedia entropy (Media.url media) "upload"
                   (MediaStorage.mimeOf (Media.url media))
                   (worldAt (MediaStorage.processEntry entropy) mediaUrls i wl))) in
  (exists out wc',
      CloudMedia.processMediaUrls imgbbApiKey network mediaUrls wc = (Ok out, wc')
      /\ (forall i media, mediaUrls !! i = Some media -> uploadThrowsAt i media ->
                          out !! i = Some media)
      /\ ((forall i media, mediaUrls !! i = Some media -> uploadThrowsAt i media) ->
          out = mediaUrls))
  /\ (exists out wl',
         MediaStorage.processMediaUrls entropy mediaUrls wl = (Ok out, wl')
         /\ (forall i media, mediaUrls !! i = Some media -> storeThrowsAt i media ->
                             out !! i = Some media)
         /\ ((forall i media, mediaUrls !! i = Some media -> storeThrowsAt i media) ->
             out = mediaUrls)).
Proof.
  intros uploadThrowsAt storeThrowsAt. split.
  - destruct (cloud_runs imgbbApiKey network mediaUrls wc) as (out & wc' & Hrun & Hruns).
    assert (Hpos : forall i media, mediaUrls !! i = Some media ->
                                   uploadThrowsAt i media -> out !! i = Some media).
    { intros i media Hi Hthrows.
      destruct (runs_lookup _ _ _ _ _ Hruns i media Hi) as (b & wi' & Hb & Hout).
      apply cloud_entry_recovers in Hthrows. rewrite Hb in Hthrows.
      simpl in Hthrows. now inversion Hthrows; subst. }
    exists out, wc'. split; [exact Hrun|]. split; [exact Hpos|].
    intros Hall. eapply runs_identity; [exact Hruns|]. eauto.
  - destruct (local_runs entropy mediaUrls wl) as (out & wl' & Hrun & Hruns).
    assert (Hpos : forall i media, mediaUrls !! i = Some media ->
                                   storeThrowsAt i media -> out !! i = Some media).
    { intros i media Hi Hthrows.
      destruct (runs_lookup _ _ _ _ _ Hruns i media Hi) as (b & wi' & Hb & Hout).
      apply local_entry_recovers in Hthrows. rewrite Hb in Hthrows.
      simpl in Hthrows. now inversion Hthrows; subst. }
    exists out, wl'. split; [exact Hrun|]. split; [exact Hpos|].
    intros Hall. eapply runs_identity; [exact Hruns|]. eauto.
Qed.

(** ** Video entries and recomputed types *)

Lemma local_entry_stored (entropy : nat -> N) (media : Media.t)
    (w w' : MediaStorage.World) (f : MediaStorage.MediaFile) :
  isDataUrl media = true ->
  MediaStorage.storeMedia entropy (Media.url media) "upload"
    (MediaStorage.mimeOf (Media.url media)) w = (Ok f, w') ->
  MediaStorage.processEntry entropy media w = (Ok (descriptorOf f), w').
Proof.
  intros Hd Hs. now rewrite (local_entry_data _ _ _ Hd), Hs.
Qed.

Lemma descriptorOf_differs (entropy : nat -> N) (media : Media.t)
    (dataUrl originalName mimeType : string)
    (w w' : MediaStorage.World) (f : MediaStorage.MediaFile) :
  isDataUrl media = true ->
  MediaStorage.storeMedia entropy dataUrl originalName mimeType w = (Ok f, w') ->
  descriptorOf f <> media.
Proof.
  intros Hd Hs Heq. apply storeMedia_type in Hs as [_ Hurl].
  unfold isDataUrl in Hd. rewrite <- Heq in Hd.
  unfold JS.startsWith in *. cbn [descriptorOf Media.url] in Hd.
  apply String.prefix_correct in Hurl, Hd.
  destruct (MediaStorage.url f) as [|c u]; simpl in Hurl, Hd; [discriminate Hd|].
  congruence.
Qed.

(** C3, counterexample. The local-storage service stores a video whose
    url is a data URL and returns the stored file's descriptor, not the
    entry it was given. *)
Lemma local_video_data_url_is_replaced :
  let media := {| Media.type := "video";
                  Media.url := "data:video/mp4;base64,AAAA";
                  Media.thumbnailUrl := None |} in
  let stored := {| Media.type := "video";
                   Media.url := "/uploads/0000000000000000.mp4";
                   Media.thumbnailUrl :=
                     Some "/uploads/thumbnails/0000000000000000_thumb.jpg" |} in
  Media.type media = "video"
  /\ fst (MediaStorage.processMediaUrls zeroEntropy [media] freshDisk) = Ok [stored]
  /\ fst (MediaStorage.processMediaUrls zeroEntropy [media] freshDisk) <> Ok [media].
Proof.
  assert (E : fst (MediaStorage.processMediaUrls zeroEntropy
                     [{| Media.type := "video";
                         Media.url := "data:video/mp4;base64,AAAA";
                         Media.thumbnailUrl := None |}] freshDisk)
              = Ok [{| Media.type := "video";
                       Media.url := "/uploads/0000000000000000.mp4";
                       Media.thumbnailUrl :=
                         Some "/uploads/thumbnails/0000000000000000_thumb.jpg" |}])
    by (vm_compute; reflexivity).
  cbv zeta. split; [reflexivity|]. split; [exact E|].
  rewrite E. discriminate.
Qed.

(** C3, amended. The cloud service returns every entry whose type is
    [video] unchanged, whether or not its url is a data URL. The
    local-storage service returns such an entry unchanged when its url is
    not a data URL or when storing it throws; a video whose data URL is
    stored is replaced by the descriptor of the stored file, which differs
    from the entry. *)
Theorem video_entries_cloud_kept_local_stored
    (entropy : nat -> N) (imgbbApiKey : option string)
    (network : nat -> CloudMedia.FormData -> CloudMedia.FetchOutcome)
    (mediaUrls : list Media.t) (wc : CloudMedia.World) (wl : MediaStorage.World) :
  (exists out wc',
      CloudMedia.processMediaUrls imgbbApiKey network mediaUrls wc = (Ok out, wc')
      /\ forall i media, mediaUrls !! i = Some media ->
                         Media.type media = "video" ->
                         out !! i = Some media)
  /\ (exists out wl',
         MediaStorage.processMediaUrls entropy mediaUrls wl = (Ok out, wl')
         /\ forall i media, mediaUrls !! i = Some media ->
                            Media.type media = "video" ->
            match JS.startsWith (Media.url media) "data:",
                  fst (MediaStorage.storeMedia entropy (Media.url media) "upload"
                         (MediaStorage.mimeOf (Media.url media))
                         (worldAt (MediaStorage.processEntry entropy) mediaUrls i wl))
            with
            | true, Ok f => out !! i = Some (descriptorOf f) /\ descriptorOf f <> media
            | _, _ => out !! i = Some media
            end).
Proof.
  split.
  - destruct (cloud_runs imgbbApiKey network mediaUrls wc) as (out & wc' & Hrun & Hruns).
    exists out, wc'. split; [exact Hrun|]. intros i media Hi Hty.
    destruct (runs_lookup _ _ _ _ _ Hruns i media Hi) as (b & wi' & Hb & Hout).
    rewrite cloud_entry_not_image in Hb by (rewrite Hty; discriminate).
    now inversion Hb; subst.
  - destruct (local_runs entropy mediaUrls wl) as (out & wl' & Hrun & Hruns).
    exists out, wl'. split; [exact Hrun|]. intros i media Hi _.
    destruct (runs_lookup _ _ _ _ _ Hruns i media Hi) as (b & wi' & Hb & Hout).
    destruct (JS.startsWith (Media.url media) "data:") eqn:Hd.
    + rewrite (local_entry_data _ _ _ Hd) in Hb.
      destruct (MediaStorage.storeMedia _ _ _ _ _) as [[f|e] w1] eqn:Hs; simpl.
      * inversion Hb; subst. split; [exact Hout|].
        eapply descriptorOf_differs; eassumption.
      * now inversion Hb; subst.
    + rewrite (local_entry_plain _ _ _ Hd) in Hb. now inversion Hb; subst.
Qed.


(** ** Stored files and their retrieval *)

Lemma append_inj_l (p a b : string) : (p ++ a)%string = (p ++ b)%string -> a = b.
Proof.
  induction p as [|c p IH]; simpl; [tauto|].
  intros E. injection E as E. now apply IH.
Qed.

Lemma fileName_inj (mediaId ext1 ext2 : string) :
  (mediaId ++ "." ++ ext1)%string = (mediaId ++ "." ++ ext2)%string -> ext1 = ext2.
Proof.
  intros E. apply append_inj_l in E. simpl in E. now injection E.
Qed.

Lemma existsSync_true (w : MediaStorage.World) (fileName : string) :
  MediaStorage.existsSync w fileName = true <->
  exists fs buffer, MediaStorage.disk w = Some fs /\ fs !! fileName = Some buffer.
Proof.
  unfold MediaStorage.existsSync. destruct (MediaStorage.disk w) as [fs|].
  - rewrite bool_decide_eq_true. split.
    + intros [buffer Hb]. eauto.
    + intros (fs' & buffer & E & Hb). inversion E; subst. eauto.
  - split; [discriminate|]. intros (fs' & buffer & E & _). discriminate.
Qed.

(** [getMedia] never throws and leaves the world alone. It returns [null]
    exactly when no file named after the identifier exists under any of
    the eight extensions it probes, and otherwise the content of such a
    file. *)
Lemma getMedia_cases (mediaId : string) (w : MediaStorage.World) :
  ((forall ext, In ext MediaStorage.extensions ->
                MediaStorage.existsSync w (mediaId ++ "." ++ ext)%string = false)
   /\ MediaStorage.getMedia mediaId w = (Ok None, w))
  \/ (exists ext fs buffer,
         In ext MediaStorage.extensions
         /\ MediaStorage.disk w = Some fs
         /\ fs !! (mediaId ++ "." ++ ext)%string = Some buffer
         /\ MediaStorage.getMedia mediaId w = (Ok (Some buffer), w)).
Proof.
  unfold MediaStorage.getMedia, MediaStorage.findMediaFile, try_catch, bind, ret.
  destruct (List.filter _ _) as [|file0 files] eqn:Hf.
  - left. split; [|reflexivity]. intros ext Hext.
    destruct (MediaStorage.existsSync w _) eqn:He; [|reflexivity].
    assert (Hin : In (mediaId ++ "." ++ ext)%string
                    (List.filter (MediaStorage.existsSync w)
                       (List.map (fun ext => (mediaId ++ "." ++ ext)%string)
                          MediaStorage.extensions))).
    { apply filter_In. split; [|exact He].
      apply in_map_iff. eauto. }
    rewrite Hf in Hin. destruct Hin.
  - right.
    assert (Hin : In file0 (List.filter (MediaStorage.existsSync w)
                              (List.map (fun ext => (mediaId ++ "." ++ ext)%string)
                                 MediaStorage.extensions)))
      by (rewrite Hf; now left).
    apply filter_In in Hin as [Hmap He].
    apply in_map_iff in Hmap as (ext & <- & Hext).
    apply existsSync_true in He as (fs & buffer & Hdisk & Hfile).
    exists ext, fs, buffer. repeat split; try assumption.
    unfold MediaStorage.readFile. now rewrite Hdisk, Hfile.
Qed.

Lemma getFileExtension_known (mimeType ext : string) :
  MediaStorage.mimeToExt !! mimeType = Some ext ->
  MediaStorage.getFileExtension mimeType = ext /\ In ext MediaStorage.extensions.
Proof.
  intros Hm. unfold MediaStorage.getFileExtension, JS.memberOr. rewrite Hm.
  apply elem_of_list_to_map_2 in Hm.
  repeat (apply elem_of_cons in Hm as [Hm|Hm];
          [inversion Hm; subst; split; [reflexivity|simpl; tauto]|]).
  now apply elem_of_nil in Hm.
Qed.

Lemma getFileExtension_unknown (mimeType : string) :
  MediaStorage.mimeToExt !! mimeType = None ->
  JS.objectPrototype !! mimeType = None ->
  MediaStorage.getFileExtension mimeType = "bin".
Proof.
  intros Hm Hp. unfold MediaStorage.getFileExtension, JS.memberOr. now rewrite Hm, Hp.
Qed.

(** Outside the table the extension is [bin] or the text of an inherited
    member, and [findMediaFile] probes neither. *)
Lemma getFileExtension_unprobed (mimeType : string) :
  MediaStorage.mimeToExt !! mimeType = None ->
  ~ In (MediaStorage.getFileExtension mimeType) MediaStorage.extensions.
Proof.
  intros Hm. unfold MediaStorage.getFileExtension, JS.memberOr. rewrite Hm.
  destruct (JS.objectPrototype !! mimeType) as [inherited|] eqn:Hp.
  - apply elem_of_list_to_map_2 in Hp.
    repeat (apply elem_of_cons in Hp as [Hp|Hp];
            [inversion Hp; subst; simpl; intuition discriminate|]).
    now apply elem_of_nil in Hp.
  - simpl. intuition discriminate.
Qed.

Section RoundTrip.

Variable entropy : nat -> N.
Variables dataUrl originalName mimeType base64Data : string.
Variable w : MediaStorage.World.
Variable fs : gmap string (list Byte.byte).

Local Abbreviation mediaId :=
  (JS.toHex (MediaStorage.bytes_of_N 8 (entropy (MediaStorage.draws w)))).

(** The uploads directory exists, the data URL has a payload after its
    first comma, and the identifier drawn is not yet in use. *)
Hypothesis Hdisk : MediaStorage.disk w = Some fs.
Hypothesis Hpayload : nth_error (JS.split "," dataUrl) 1 = Some base64Data.
Hypothesis Hfresh :
  forall ext, In ext MediaStorage.extensions -> fs !! (mediaId ++ "." ++ ext)%string = None.

(** For a MIME type of the extension table, [getMedia] gives back the
    decoded payload that [storeMedia] wrote. *)
Lemma storeMedia_getMedia_known (ext : string) :
  MediaStorage.mimeToExt !! mimeType = Some ext ->
  exists f w',
    MediaStorage.storeMedia entropy dataUrl originalName mimeType w = (Ok f, w')
    /\ MediaStorage.getMedia (MediaStorage.id f) w'
       = (Ok (Some (JS.fromBase64 base64Data)), w').
Proof.
  intros Hm. apply getFileExtension_known in Hm as [Hext Hin].
  rewrite storeMedia_unfold. cbv zeta. rewrite Hpayload, Hdisk, Hext.
  eexists _, _. split; [reflexivity|]. cbn [MediaStorage.id].
  match goal with |- MediaStorage.getMedia _ ?w' = _ =>
    destruct (getMedia_cases mediaId w') as [[Hnone _]|(e & fs' & buffer & He & Hd & Hfile & Hget)]
  end.
  - specialize (Hnone ext Hin). unfold MediaStorage.existsSync in Hnone.
    cbn [MediaStorage.disk] in Hnone. rewrite lookup_insert_eq in Hnone.
    rewrite bool_decide_eq_false in Hnone. exfalso. apply Hnone. eauto.
  - rewrite Hget. cbn [MediaStorage.disk] in Hd. inversion Hd; subst fs'; clear Hd.
    destruct (decide (e = ext)) as [->|Hne].
    + rewrite lookup_insert_eq in Hfile. now inversion Hfile.
    + rewrite lookup_insert_ne in Hfile.
      * rewrite (Hfresh e He) in Hfile. discriminate Hfile.
      * intros E. apply fileName_inj in E. congruence.
Qed.

(** For any other MIME type the file is written under an extension that
    [getMedia] does not probe ([bin], unless the MIME type names an
    inherited member): the lookup gives [null]. *)
Lemma storeMedia_getMedia_unknown :
  MediaStorage.mimeToExt !! mimeType = None ->
  exists f w',
    MediaStorage.storeMedia entropy dataUrl originalName mimeType w = (Ok f, w')
    /\ MediaStorage.url f
       = ("/uploads/" ++ mediaId ++ "." ++ MediaStorage.getFileExtension mimeType)%string
    /\ MediaStorage.getMedia (MediaStorage.id f) w' = (Ok None, w').
Proof.
  intros Hm. apply getFileExtension_unprobed in Hm.
  rewrite storeMedia_unfold. cbv zeta. rewrite Hpayload, Hdisk.
  eexists _, _. split; [reflexivity|]. split; [reflexivity|].
  cbn [MediaStorage.id].
  match goal with |- MediaStorage.getMedia _ ?w' = _ =>
    destruct (getMedia_cases mediaId w') as [[_ Hget]|(e & fs' & buffer & He & Hd & Hfile & _)]
  end; [exact Hget|].
  exfalso. cbn [MediaStorage.disk] in Hd. inversion Hd; subst fs'; clear Hd.
  rewrite lookup_insert_ne in Hfile.
  - rewrite (Hfresh e He) in Hfile. discriminate Hfile.
  - intros E. apply fileName_inj in E. subst e. contradiction.
Qed.

End RoundTrip.

(** C4, the failing input. An SVG image is stored under the extension
    [bin]; [getMedia] with the identifier of the returned descriptor then
    answers [null], not the six bytes decoded from the payload. *)
Theorem storeMedia_getMedia_loses_unknown_mime :
  JS.fromBase64 "PHN2Zy8+"
  = [Byte.x3c; Byte.x73; Byte.x76; Byte.x67; Byte.x2f; Byte.x3e]
  /\ match MediaStorage.storeMedia zeroEntropy
             "data:image/svg+xml;base64,PHN2Zy8+" "upload" "image/svg+xml" freshDisk with
     | (Ok f, w') =>
         MediaStorage.url f = "/uploads/0000000000000000.bin"
         /\ MediaStorage.size f = 6
         /\ fst (MediaStorage.getMedia (MediaStorage.id f) w') = Ok None
     | (Throw _, _) => False
     end.
Proof. vm_compute. repeat split. Qed.

(** ** Uploading to the provider *)

Lemma uploadImage_unfold (imgbbApiKey : option string)
    (network : nat -> CloudMedia.FormData -> CloudMedia.FetchOutcome)
    (dataUrl : string) (name : option string) (w : CloudMedia.World) :
  CloudMedia.uploadImage imgbbApiKey network dataUrl name w =
  match imgbbApiKey with
  | Some key =>
      if JS.truthy key then
        let formData := CloudMedia.buildForm key dataUrl name in
        let w' := {| CloudMedia.requests := CloudMedia.requests w ++ [formData] |} in
        match network (length (CloudMedia.requests w)) formData with
        | CloudMedia.Rejected reason => (Throw (FetchError reason), w')
        | CloudMedia.Resolved response =>
            if CloudMedia.ok response then
              match CloudMedia.json response with
              | Some reply =>
                  if CloudMedia.success reply then
                    match CloudMedia.data reply with
                    | Some d =>
                        (Ok {| CloudMedia.url := CloudMedia.data_url d;
                               CloudMedia.thumbnailUrl :=
                                 JS.or_else (CloudMedia.data_thumb_url d)
                                            (CloudMedia.data_medium_url d);
                               CloudMedia.deleteUrl := CloudMedia.data_delete_url d;
                               CloudMedia.id := CloudMedia.data_id d |}, w')
                    | None => (Throw (TypeError "Cannot read properties of undefined"), w')
                    end
                  else (Throw (JsError ("ImgBB API error: "
                                          ++ CloudMedia.toString
                                               (JS.or_else (CloudMedia.error_message reply)
                                                           (Some "Upload failed")))%string), w')
              | None => (Throw (JsError "Unexpected token in JSON"), w')
              end
            else (Throw (JsError ("ImgBB upload failed: "
                                    ++ pretty (CloudMedia.status response)
                                    ++ " " ++ CloudMedia.text response)%string), w')
        end
      else (Throw (JsError "IMGBB_API_KEY not configured"), w)
  | None => (Throw (JsError "IMGBB_API_KEY not configured"), w)
  end.
Proof.
  unfold CloudMedia.uploadImage.
  destruct imgbbApiKey as [key|]; [|reflexivity].
  destruct (JS.truthy key); [|reflexivity].
  unfold try_catch, bind, ret, throw, CloudMedia.fetch,
    CloudMedia.responseJson, CloudMedia.resultData.
  cbv zeta.
  destruct (network _ _) as [reason|response]; [reflexivity|].
  destruct (CloudMedia.ok response); [|reflexivity]. cbn [negb].
  destruct (CloudMedia.json response) as [reply|]; [|reflexivity].
  unfold ret, throw.
  destruct (CloudMedia.success reply); [|reflexivity]. cbn [negb].
  destruct (CloudMedia.data reply) as [d|]; reflexivity.
Qed.

(** C7, counterexample. With a key configured and the network down there
    is no response at all, neither a non-2xx one nor one reporting a
    failure, and [uploadImage] throws all the same. *)
Lemma uploadImage_throws_on_network_failure :
  let imgbbApiKey := Some "secret" in
  let network := fun (_ : nat) (_ : CloudMedia.FormData) =>
                   CloudMedia.Rejected "ECONNRESET" in
  CloudMedia.configured imgbbApiKey = true
  /\ (forall n formData response, network n formData <> CloudMedia.Resolved response)
  /\ fst (CloudMedia.uploadImage imgbbApiKey network "data:image/png;base64,AAAA" None
            {| CloudMedia.requests := [] |})
     = Throw (FetchError "ECONNRESET").
Proof.
  cbv zeta. split; [reflexivity|]. split; [discriminate|]. reflexivity.
Qed.

(** C7, amended. [uploadImage] throws if and only if the API key is not
    configured, or the request itself fails, or the response is not a 2xx
    one, or its body is not JSON, or the provider reports a failure, or a
    reply reporting success carries no data. With no key configured it
    throws the configuration error without sending any request. *)
Theorem uploadImage_throws_iff (imgbbApiKey : option string)
    (network : nat -> CloudMedia.FormData -> CloudMedia.FetchOutcome)
    (dataUrl : string) (name : option string) (w : CloudMedia.World) :
  (throws (fst (CloudMedia.uploadImage imgbbApiKey network dataUrl name w)) <->
   CloudMedia.configured imgbbApiKey = false
   \/ exists key,
        imgbbApiKey = Some key
        /\ match network (length (CloudMedia.requests w))
                  (CloudMedia.buildForm key dataUrl name) with
           | CloudMedia.Rejected _ => True
           | CloudMedia.Resolved response =>
               CloudMedia.ok response = false
               \/ CloudMedia.json response = None
               \/ exists reply,
                    CloudMedia.json response = Some reply
                    /\ (CloudMedia.success reply = false \/ CloudMedia.data reply = None)
           end)
  /\ (CloudMedia.configured imgbbApiKey = false ->
      CloudMedia.uploadImage imgbbApiKey network dataUrl name w
      = (Throw (JsError "IMGBB_API_KEY not configured"), w)).
Proof.
  rewrite uploadImage_unfold. unfold CloudMedia.configured, throws. split.
  - destruct imgbbApiKey as [key|]; simpl.
    2:{ split; [now left|eauto]. }
    destruct (JS.truthy key) eqn:Hkey; simpl.
    2:{ split; [now left|eauto]. }
    cbv zeta.
    destruct (network _ _) as [reason|response] eqn:Hnet; simpl.
    { split; [|eauto]. intros _. right. exists key. now rewrite Hnet. }
    split.
    + intros [e He]. right. exists key. split; [reflexivity|]. rewrite Hnet.
      destruct (CloudMedia.ok response); [|now left].
      destruct (CloudMedia.json response) as [reply|]; [|now right; left].
      right; right. exists reply. split; [reflexivity|].
      destruct (CloudMedia.success reply); [|now left].
      destruct (CloudMedia.data reply); [discriminate He|now right].
    + intros [Hc|(key' & Hk & Hcase)]; [discriminate Hc|].
      inversion Hk; subst key'; clear Hk. rewrite Hnet in Hcase.
      destruct Hcase as [Hok|[Hjson|(reply & Hjson & Hreply)]].
      * rewrite Hok. simpl. eauto.
      * destruct (CloudMedia.ok response); simpl; [|eauto].
        rewrite Hjson. simpl. eauto.
      * destruct (CloudMedia.ok response); simpl; [|eauto].
        rewrite Hjson. destruct Hreply as [Hs|Hd].
        -- rewrite Hs. simpl. eauto.
        -- destruct (CloudMedia.success reply); simpl; [|eauto].
           rewrite Hd. simpl. eauto.
  - destruct imgbbApiKey as [key|]; simpl; [|reflexivity].
    now intros ->.
Qed.

(** ** Serving stored files *)

Lemma getUploads_unfold (filename : string) (w : MediaStorage.World) :
  Routes.getUploads filename w =
  match fst (MediaStorage.getMedia (Routes.mediaIdOf filename) w) with
  | Ok (Some buffer) =>
      (Ok {| Routes.statusCode := 200;
             Routes.headers :=
               [("Content-Type", Routes.contentTypeOf (Routes.extOf filename));
                ("Cache-Control", "public, max-age=31536000")];
             Routes.body := Routes.Send buffer |}, w)
  | _ =>
      (Ok {| Routes.statusCode := 404; Routes.headers := [];
             Routes.body := Routes.Json "Media not found" |}, w)
  end.
Proof.
  unfold Routes.getUploads, try_catch, bind, ret.
  destruct (getMedia_cases (Routes.mediaIdOf filename) w)
    as [[_ Hget]|(ext & fs & buffer & _ & _ & _ & Hget)]; now rewrite Hget.
Qed.

(** The key of the content-type lookup: the extension, or the empty
    string when there is none. *)
Lemma contentTypeOf_member (ext : option string) :
  Routes.contentTypeOf ext
  = JS.memberOr Routes.contentTypes (default "" ext) "application/octet-stream".
Proof.
  unfold Routes.contentTypeOf. now destruct ext as [[|c e]|].
Qed.

(** C8, the failing inputs. With a PNG stored as [0000000000000000.png],
    a request for [0000000000000000.constructor] or
    [0000000000000000.__proto__] is answered 200 with the PNG, and although
    the content-type table has neither extension, the [Content-Type] sent
    is the text of the member the table inherits, not
    [application/octet-stream]. *)
Theorem getUploads_inherited_extension :
  let w := snd (MediaStorage.storeMedia zeroEntropy
                  "data:image/png;base64,iVBORw0KGgo=" "upload" "image/png" freshDisk) in
  let png := [Byte.x89; Byte.x50; Byte.x4e; Byte.x47;
              Byte.x0d; Byte.x0a; Byte.x1a; Byte.x0a] in
  Routes.contentTypes !! "constructor" = None
  /\ Routes.contentTypes !! "__proto__" = None
  /\ fst (Routes.getUploads "0000000000000000.constructor" w)
     = Ok {| Routes.statusCode := 200;
             Routes.headers := [("Content-Type", "function Object() { [native code] }");
                                ("Cache-Control", "public, max-age=31536000")];
             Routes.body := Routes.Send png |}
  /\ fst (Routes.getUploads "0000000000000000.__proto__" w)
     = Ok {| Routes.statusCode := 200;
             Routes.headers := [("Content-Type", "[object Object]");
                                ("Cache-Control", "public, max-age=31536000")];
             Routes.body := Routes.Send png |}.
Proof.
  cbv zeta. repeat split; vm_compute; reflexivity.
Qed.

Lemma split_without (sep : ascii) (s : string) :
  JS.includes sep s = false -> JS.split sep s = [s].
Proof.
  induction s as [|c s IH]; simpl; [reflexivity|].
  intros H. apply orb_false_iff in H as [Hc Hs].
  rewrite Hc, (IH Hs). reflexivity.
Qed.

Lemma split_at_first (sep : ascii) (s rest : string) :
  JS.includes sep s = false ->
  JS.split sep (s ++ String sep rest)%string = s :: JS.split sep rest.
Proof.
  induction s as [|c s IH]; simpl.
  - intros _. now rewrite Ascii.eqb_refl.
  - intros H. apply orb_false_iff in H as [Hc Hs].
    rewrite Hc, (IH Hs). reflexivity.
Qed.

Lemma split_not_nil (sep : ascii) (s : string) : JS.split sep s <> [].
Proof.
  destruct s as [|c s]; simpl; [discriminate|].
  destruct (Ascii.eqb c sep); [discriminate|].
  destruct (JS.split sep s); discriminate.
Qed.

Lemma hex_byte_without_dot (b : Byte.byte) :
  Ascii.eqb (JS.hex_digit (Byte.to_N b / 16)) "." = false
  /\ Ascii.eqb (JS.hex_digit (Byte.to_N b mod 16)) "." = false.
Proof. destruct b; split; vm_compute; reflexivity. Qed.

Lemma toHex_without_dot (buf : list Byte.byte) : JS.includes "." (JS.toHex buf) = false.
Proof.
  induction buf as [|b buf IH]; [reflexivity|].
  destruct (hex_byte_without_dot b) as [Hhi Hlo].
  cbn [JS.toHex JS.includes]. now rewrite Hhi, Hlo, IH.
Qed.

(** The identifiers the service hands out contain no dot. *)
Lemma generateMediaId_without_dot (entropy : nat -> N) (w : MediaStorage.World) :
  exists mediaId w',
    MediaStorage.generateMediaId entropy w = (Ok mediaId, w')
    /\ JS.includes "." mediaId = false.
Proof.
  eexists _, _. split; [reflexivity|]. apply toHex_without_dot.
Qed.

(** C10. The route finds the file from the part of the filename before
    its first dot alone. For an identifier without dots, the status and
    the bytes served for [mediaId.rest] are those of [getMedia mediaId],
    whatever [rest] is, while [Content-Type] is computed from [rest]. So
    the content type can disagree with the stored file: a PNG stored as
    [0000000000000000.png] is served with [video/mp4] when asked for as
    [0000000000000000.mp4]. *)
Theorem getUploads_locates_by_id_only :
  (forall (w : MediaStorage.World) (mediaId rest : string),
      JS.includes "." mediaId = false ->
      exists res,
        Routes.getUploads (mediaId ++ "." ++ rest)%string w = (Ok res, w)
        /\ match fst (MediaStorage.getMedia mediaId w) with
           | Ok (Some buffer) =>
               Routes.statusCode res = 200%Z
               /\ Routes.body res = Routes.Send buffer
               /\ Routes.getHeader res "Content-Type"
                  = Some (Routes.contentTypeOf
                            (JS.toLowerCase <$> JS.pop (JS.split "." rest)))
           | _ => Routes.statusCode res = 404%Z
           end)
  /\ (let w := snd (MediaStorage.storeMedia zeroEntropy
                      "data:image/png;base64,iVBORw0KGgo=" "upload" "image/png"
                      freshDisk) in
      let png := [Byte.x89; Byte.x50; Byte.x4e; Byte.x47;
                  Byte.x0d; Byte.x0a; Byte.x1a; Byte.x0a] in
      MediaStorage.findMediaFile "0000000000000000" w
      = (Ok ["0000000000000000.png"], w)
      /\ fst (Routes.getUploads "0000000000000000.mp4" w)
         = Ok {| Routes.statusCode := 200;
                 Routes.headers := [("Content-Type", "video/mp4");
                                    ("Cache-Control", "public, max-age=31536000")];
                 Routes.body := Routes.Send png |}
      /\ fst (Routes.getUploads "0000000000000000.png" w)
         = Ok {| Routes.statusCode := 200;
                 Routes.headers := [("Content-Type", "image/png");
                                    ("Cache-Control", "public, max-age=31536000")];
                 Routes.body := Routes.Send png |}).
Proof.
  split.
  - intros w mediaId rest Hid. rewrite getUploads_unfold.
    assert (Hsplit : JS.split "." (mediaId ++ "." ++ rest)%string
                     = mediaId :: JS.split "." rest)
      by now apply split_at_first.
    unfold Routes.mediaIdOf, Routes.extOf. rewrite Hsplit. cbn [hd].
    assert (Hpop : JS.pop (mediaId :: JS.split "." rest) = JS.pop (JS.split "." rest)).
    { unfold JS.pop. pose proof (split_not_nil "." rest) as Hne.
      destruct (JS.split "." rest); [contradiction|reflexivity]. }
    rewrite Hpop.
    destruct (getMedia_cases mediaId w)
      as [[_ Hget]|(ext & fs & buffer & _ & _ & _ & Hget)]; rewrite Hget; cbn [fst].
    + eexists. split; reflexivity.
    + eexists. split; [reflexivity|]. repeat split.
  - cbv zeta. split; [|split].
    + vm_compute. reflexivity.
    + vm_compute. reflexivity.
    + vm_compute. reflexivity.
Qed.

(** ** Client-side compression *)

Lemma newDimensions_scaled (width height : N) :
  let m := N.max width height in
  let m' := N.min 800 m in
  MediaUpload.newDimensions width height
  = ((width * m') / m, (height * m') / m)%N.
Proof.
  cbv zeta. unfold MediaUpload.newDimensions.
  destruct (N.ltb_spec height width) as [Hlt|Hge].
  - rewrite (N.max_l width height) by lia.
    destruct (N.ltb_spec 800 width) as [Hbig|Hsmall].
    + rewrite (N.min_l 800 width) by lia.
      rewrite (N.mul_comm width 800), N.div_mul by lia. reflexivity.
    + rewrite (N.min_r 800 width) by lia.
      rewrite !N.div_mul by lia. reflexivity.
  - rewrite (N.max_r width height) by lia.
    destruct (N.ltb_spec 800 height) as [Hbig|Hsmall].
    + rewrite (N.min_l 800 height) by lia.
      rewrite (N.mul_comm height 800), N.div_mul by lia. reflexivity.
    + rewrite (N.min_r 800 height) by lia.
      destruct (N.eq_dec height 0%N) as [->|Hnz].
      * assert (width = 0%N) as -> by lia. reflexivity.
      * rewrite !N.div_mul by lia. reflexivity.
Qed.

Lemma newDimensions_longer_side (width height : N) :
  let (width', height') := MediaUpload.newDimensions width height in
  N.max width' height' = N.min 800 (N.max width height).
Proof.
  unfold MediaUpload.newDimensions.
  destruct (N.ltb_spec height width) as [Hlt|Hge].
  - destruct (N.ltb_spec 800 width) as [Hbig|Hsmall]; [|lia].
    assert (height * 800 / width <= 800)%N; [|lia].
    apply N.Div0.div_le_upper_bound. nia.
  - destruct (N.ltb_spec 800 height) as [Hbig|Hsmall]; [|lia].
    assert (width * 800 / height <= 800)%N; [|lia].
    apply N.Div0.div_le_upper_bound. nia.
Qed.

(** Every image of more than 1048576 bytes: the promise is rejected
    before anything is loaded or drawn. *)
Lemma processFile_large_image (f : MediaUpload.File) :
  JS.startsWith (MediaUpload.file_type f) "image/" = true ->
  (1048576 < MediaUpload.file_size f)%N ->
  MediaUpload.processFile f = Throw (TypeError "Image is not a constructor").
Proof.
  intros Hty Hsize. unfold MediaUpload.processFile. rewrite Hty.
  replace (1024 * 1024 <? MediaUpload.file_size f)%N with true
    by (symmetry; apply N.ltb_lt; lia).
  reflexivity.
Qed.

(** C6, the failing inputs. For a PNG of 2 MB and 2000 by 1000 pixels
    [processFile] does not produce an image of 800 by 400: [new Image()]
    raises a [TypeError] and the promise is rejected. A PNG of exactly
    1048576 bytes does not take the compression path either: it is read
    as it is. *)
Theorem processFile_rejects_large_png :
  MediaUpload.processFile
    {| MediaUpload.file_type := "image/png";
       MediaUpload.file_size := 2097152;
       MediaUpload.image := Some (2000, 1000)%N;
       MediaUpload.dataURL := Some "data:image/png;base64,iVBORw0KGgo=" |}
  = Throw (TypeError "Image is not a constructor")
  /\ MediaUpload.processFile
       {| MediaUpload.file_type := "image/png";
          MediaUpload.file_size := 1048576;
          MediaUpload.image := Some (2000, 1000)%N;
          MediaUpload.dataURL := Some "data:image/png;base64,iVBORw0KGgo=" |}
     = Ok (Some {| MediaUpload.type := "image";
                   MediaUpload.url := MediaUpload.Reader "data:image/png;base64,iVBORw0KGgo=";
                   MediaUpload.thumbnailUrl := None;
                   MediaUpload.file :=
                     {| MediaUpload.file_type := "image/png";
                        MediaUpload.file_size := 1048576;
                        MediaUpload.image := Some (2000, 1000)%N;
                        MediaUpload.dataURL := Some "data:image/png;base64,iVBORw0KGgo=" |} |}).
Proof. split; vm_compute; reflexivity. Qed.

(** ** Worked scenarios *)

(** A provider that accepts every upload and answers with fixed links. *)
Example cloud_upload_succeeds :
  let network := fun (_ : nat) (_ : CloudMedia.FormData) =>
    CloudMedia.Resolved
      {| CloudMedia.status := 200; CloudMedia.text := "";
         CloudMedia.json :=
           Some {| CloudMedia.success := true;
                   CloudMedia.error_message := None;
                   CloudMedia.data :=
                     Some {| CloudMedia.data_url := "https://cdn.example/x.png";
                             CloudMedia.data_thumb_url :=
                               Some "https://cdn.example/x_thumb.png";
                             CloudMedia.data_medium_url := None;
                             CloudMedia.data_delete_url := None;
                             CloudMedia.data_id := "x" |} |} |} in
  CloudMedia.processMediaUrls (Some "secret") network
    [{| Media.type := "image"; Media.url := "data:image/png;base64,AAAA";
        Media.thumbnailUrl := None |}]
    {| CloudMedia.requests := [] |}
  = (Ok [{| Media.type := "image"; Media.url := "https://cdn.example/x.png";
            Media.thumbnailUrl := Some "https://cdn.example/x_thumb.png" |}],
     {| CloudMedia.requests := [[("key", "secret"); ("image", "AAAA")]] |}).
Proof. reflexivity. Qed.

(** The same request without an API key: the list comes back as it was and
    nothing is sent. *)
Example cloud_upload_without_key :
  CloudMedia.processMediaUrls None (fun _ _ => CloudMedia.Rejected "unreachable")
    [{| Media.type := "image"; Media.url := "data:image/png;base64,AAAA";
        Media.thumbnailUrl := None |}]
    {| CloudMedia.requests := [] |}
  = (Ok [{| Media.type := "image"; Media.url := "data:image/png;base64,AAAA";
            Media.thumbnailUrl := None |}],
     {| CloudMedia.requests := [] |}).
Proof. reflexivity. Qed.

(** A JPEG is stored under [.jpg], and [getMedia] finds it from the
    identifier alone. *)
Example store_then_get_jpeg :
  match MediaStorage.storeMedia zeroEntropy "data:image/jpeg;base64,/9j/4A=="
          "upload" "image/jpeg" freshDisk with
  | (Ok f, w') =>
      MediaStorage.url f = "/uploads/0000000000000000.jpg"
      /\ fst (MediaStorage.getMedia (MediaStorage.id f) w')
         = Ok (Some [Byte.xff; Byte.xd8; Byte.xff; Byte.xe0])
  | (Throw _, _) => False
  end.
Proof. vm_compute. split; reflexivity. Qed.

(** Without an uploads directory every store fails and the local service
    returns its input. *)
Example local_store_without_directory :
  fst (MediaStorage.processMediaUrls zeroEntropy
         [{| Media.type := "image"; Media.url := "data:image/png;base64,AAAA";
             Media.thumbnailUrl := None |}]
         {| MediaStorage.disk := None; MediaStorage.draws := 0 |})
  = Ok [{| Media.type := "image"; Media.url := "data:image/png;base64,AAAA";
           Media.thumbnailUrl := None |}].
Proof. reflexivity. Qed.

(** ** Base64 text of a buffer *)

(** Linear arithmetic with quotients and remainders by constants. *)
Ltac div_lia := zify; Z.to_euclidean_division_equations; lia.

Lemma digit_sextet (v : N) :
  (v < 64)%N ->
  Ascii.eqb (Buffer.digit v) "=" = false /\ JS.sextet (Buffer.digit v) = Some v.
Proof.
  intros Hv.
  assert (Hall : forallb (fun n => negb (Ascii.eqb (Buffer.digit (N.of_nat n)) "=")
                                   && match JS.sextet (Buffer.digit (N.of_nat n)) with
                                      | Some u => N.eqb u (N.of_nat n)
                                      | None => false
                                      end)
                   (seq 0 64) = true) by (vm_compute; reflexivity).
  rewrite forallb_forall in Hall.
  specialize (Hall (N.to_nat v)). rewrite N2Nat.id in Hall.
  assert (Hin : In (N.to_nat v) (seq 0 64)) by (apply in_seq; lia).
  apply Hall in Hin. apply andb_true_iff in Hin as [Hne Hs].
  split; [now apply negb_true_iff|].
  destruct (JS.sextet (Buffer.digit v)) as [u|]; [|discriminate Hs].
  apply N.eqb_eq in Hs. now subst.
Qed.

Lemma sextets_digit (v : N) (s : string) :
  (v < 64)%N -> JS.sextets (String (Buffer.digit v) s) = v :: JS.sextets s.
Proof.
  intros Hv. destruct (digit_sextet v Hv) as [Hne Hs].
  cbn [JS.sextets]. now rewrite Hne, Hs.
Qed.

Lemma byte_of_to_N (a : Byte.byte) (n : N) : n = Byte.to_N a -> JS.byte_of_N n = a.
Proof.
  intros ->. unfold JS.byte_of_N.
  pose proof (Byte.to_N_bounded a) as Hb.
  rewrite N.mod_small by lia. now rewrite Byte.of_to_N.
Qed.

Lemma triples_ind {A : Type} (P : list A -> Prop) :
  P [] -> (forall a, P [a]) -> (forall a b, P [a; b]) ->
  (forall a b c rest, P rest -> P (a :: b :: c :: rest)) ->
  forall l, P l.
Proof.
  intros H0 H1 H2 H3.
  assert (G : forall n l, length l <= n -> P l).
  { induction n as [|n IH]; intros l Hl.
    - destruct l; [exact H0|simpl in Hl; lia].
    - destruct l as [|a [|b [|c rest]]]; auto.
      apply H3, IH. simpl in Hl. lia. }
  intros l. now apply (G (length l)).
Qed.

Lemma decode_toBase64 (buf : list Byte.byte) :
  JS.fromBase64 (Buffer.toBase64 buf) = buf.
Proof.
  unfold JS.fromBase64.
  induction buf as [|a|a b|a b c rest IH] using triples_ind.
  - reflexivity.
  - pose proof (Byte.to_N_bounded a) as Ha.
    cbn [Buffer.toBase64]. cbv zeta.
    rewrite !sextets_digit by div_lia.
    cbn [JS.sextets Ascii.eqb Bool.eqb JS.decode_sextets].
    f_equal. apply byte_of_to_N. div_lia.
  - pose proof (Byte.to_N_bounded a) as Ha. pose proof (Byte.to_N_bounded b) as Hb.
    cbn [Buffer.toBase64]. cbv zeta.
    rewrite !sextets_digit by div_lia.
    cbn [JS.sextets Ascii.eqb Bool.eqb JS.decode_sextets].
    f_equal; [|f_equal]; apply byte_of_to_N; div_lia.
  - pose proof (Byte.to_N_bounded a) as Ha. pose proof (Byte.to_N_bounded b) as Hb.
    pose proof (Byte.to_N_bounded c) as Hc.
    cbn [Buffer.toBase64]. cbv zeta.
    rewrite !sextets_digit by div_lia.
    cbn [JS.decode_sextets]. rewrite IH.
    f_equal; [|f_equal; [|f_equal]]; apply byte_of_to_N; div_lia.
Qed.

Lemma digit_not_comma (v : N) : (v < 64)%N -> Ascii.eqb (Buffer.digit v) "," = false.
Proof.
  intros Hv.
  assert (Hall : forallb (fun n => negb (Ascii.eqb (Buffer.digit (N.of_nat n)) ","))
                   (seq 0 64) = true) by (vm_compute; reflexivity).
  rewrite forallb_forall in Hall.
  specialize (Hall (N.to_nat v)). rewrite N2Nat.id in Hall.
  apply negb_true_iff, Hall, in_seq. lia.
Qed.

Lemma toBase64_without_comma (buf : list Byte.byte) :
  JS.includes "," (Buffer.toBase64 buf) = false.
Proof.
  induction buf as [|a|a b|a b c rest IH] using triples_ind.
  - reflexivity.
  - pose proof (Byte.to_N_bounded a).
    cbn [Buffer.toBase64 JS.includes]. cbv zeta.
    rewrite !digit_not_comma by div_lia. reflexivity.
  - pose proof (Byte.to_N_bounded a). pose proof (Byte.to_N_bounded b).
    cbn [Buffer.toBase64 JS.includes]. cbv zeta.
    rewrite !digit_not_comma by div_lia. reflexivity.
  - pose proof (Byte.to_N_bounded a). pose proof (Byte.to_N_bounded b).
    pose proof (Byte.to_N_bounded c).
    cbn [Buffer.toBase64 JS.includes]. cbv zeta.
    rewrite !digit_not_comma by div_lia. exact IH.
Qed.

Lemma toBase64_length (buf : list Byte.byte) :
  String.length (Buffer.toBase64 buf) = 4 * ((length buf + 2) / 3).
Proof.
  induction buf as [|a|a b|a b c rest IH] using triples_ind; try reflexivity.
  cbn [Buffer.toBase64 String.length length]. cbv zeta. cbn [String.length].
  rewrite IH.
  replace (S (S (S (length rest))) + 2) with (1 * 3 + (length rest + 2)) by lia.
  rewrite Nat.div_add_l by lia. lia.
Qed.

(** X1. The base64 text of a buffer decodes back to the buffer; it has
    four characters for every three bytes or part thereof, and no comma. *)
Theorem fromBase64_toBase64 (buf : list Byte.byte) :
  JS.fromBase64 (Buffer.toBase64 buf) = buf
  /\ String.length (Buffer.toBase64 buf) = 4 * ((length buf + 2) / 3)
  /\ JS.includes "," (Buffer.toBase64 buf) = false.
Proof.
  split; [apply decode_toBase64|].
  split; [apply toBase64_length|apply toBase64_without_comma].
Qed.

(** ** Data URLs built from a MIME type and a buffer *)

Lemma includes_app (c : ascii) (a b : string) :
  JS.includes c (a ++ b)%string = JS.includes c a || JS.includes c b.
Proof.
  induction a as [|x a IH]; [reflexivity|].
  simpl. now rewrite IH, orb_assoc.
Qed.

Lemma append_assoc (a b c : string) : ((a ++ b) ++ c)%string = (a ++ b ++ c)%string.
Proof.
  induction a as [|x a IH]; [reflexivity|].
  change (String x ((a ++ b) ++ c) = String x (a ++ b ++ c))%string.
  now rewrite IH.
Qed.

(** The text after the first comma of [data:<mime>;base64,<text>]. *)
Lemma payload_of_data_url (mime text : string) :
  JS.includes "," mime = false ->
  JS.includes "," text = false ->
  nth_error (JS.split "," ("data:" ++ mime ++ ";base64," ++ text)%string) 1 = Some text.
Proof.
  intros Hm Ht.
  replace ("data:" ++ mime ++ ";base64," ++ text)%string
    with (("data:" ++ mime ++ ";base64") ++ String "," text)%string.
  - rewrite split_at_first.
    + now rewrite (split_without _ _ Ht).
    + change (JS.includes "," ("data:" ++ mime ++ ";base64")%string)
        with (JS.includes "," (mime ++ ";base64")%string).
      rewrite includes_app, Hm. reflexivity.
  - rewrite !append_assoc. reflexivity.
Qed.

Lemma mimeToExt_without_comma (mimeType ext : string) :
  MediaStorage.mimeToExt !! mimeType = Some ext -> JS.includes "," mimeType = false.
Proof.
  intros Hm. apply elem_of_list_to_map_2 in Hm.
  repeat (apply elem_of_cons in Hm as [Hm|Hm]; [now inversion Hm|]).
  now apply elem_of_nil in Hm.
Qed.

(** X2. With the uploads directory in place and an identifier not yet in
    use, storing the data URL of a buffer under a MIME type of the
    extension table and asking [getMedia] for the identifier of the
    returned descriptor gives the buffer back; the descriptor's size is
    the buffer's length. *)
Theorem store_then_get_returns_buffer (entropy : nat -> N)
    (buf : list Byte.byte) (originalName mimeType ext : string)
    (w : MediaStorage.World) (fs : gmap string (list Byte.byte)) :
  MediaStorage.disk w = Some fs ->
  MediaStorage.mimeToExt !! mimeType = Some ext ->
  (forall e, In e MediaStorage.extensions ->
     fs !! (JS.toHex (MediaStorage.bytes_of_N 8 (entropy (MediaStorage.draws w)))
              ++ "." ++ e)%string = None) ->
  exists f w',
    MediaStorage.storeMedia entropy
      ("data:" ++ mimeType ++ ";base64," ++ Buffer.toBase64 buf)%string
      originalName mimeType w = (Ok f, w')
    /\ MediaStorage.size f = length buf
    /\ MediaStorage.getMedia (MediaStorage.id f) w' = (Ok (Some buf), w').
Proof.
  intros Hdisk Hm Hfresh.
  pose proof (payload_of_data_url mimeType (Buffer.toBase64 buf)
                (mimeToExt_without_comma _ _ Hm) (toBase64_without_comma buf)) as Hp.
  destruct (storeMedia_getMedia_known entropy _ originalName mimeType _ w fs
              Hdisk Hp Hfresh ext Hm) as (f & w' & Hs & Hg).
  exists f, w'. split; [exact Hs|]. rewrite decode_toBase64 in Hg. split; [|exact Hg].
  rewrite storeMedia_unfold in Hs. cbv zeta in Hs. rewrite Hp, Hdisk in Hs.
  inversion Hs; subst. cbn [MediaStorage.size]. now rewrite decode_toBase64.
Qed.

(** X2, witness. A four-byte JPEG header on an empty uploads directory. *)
Lemma store_then_get_returns_jpeg_header :
  exists f w',
    MediaStorage.storeMedia zeroEntropy
      ("data:" ++ "image/jpeg" ++ ";base64,"
         ++ Buffer.toBase64 [Byte.xff; Byte.xd8; Byte.xff; Byte.xe0])%string
      "upload" "image/jpeg" freshDisk = (Ok f, w')
    /\ MediaStorage.size f = length [Byte.xff; Byte.xd8; Byte.xff; Byte.xe0]
    /\ MediaStorage.getMedia (MediaStorage.id f) w'
       = (Ok (Some [Byte.xff; Byte.xd8; Byte.xff; Byte.xe0]), w').
Proof.
  apply (store_then_get_returns_buffer zeroEntropy
           [Byte.xff; Byte.xd8; Byte.xff; Byte.xe0] "upload" "image/jpeg" "jpg"
           freshDisk ∅).
  - reflexivity.
  - vm_compute. reflexivity.
  - intros e _. apply lookup_empty.
Defined.

(** ** What a store does to the world *)

Lemma split_second (sep : ascii) (s : string) :
  nth_error (JS.split sep s) 1 = None <-> JS.includes sep s = false.
Proof.
  split.
  - induction s as [|c s IH]; [reflexivity|].
    cbn [JS.split JS.includes]. destruct (Ascii.eqb c sep).
    + pose proof (split_not_nil sep s) as Hne.
      destruct (JS.split sep s); [contradiction|discriminate].
    + cbn [orb]. destruct (JS.split sep s) as [|h [|h' t]] eqn:Hs.
      * now destruct (split_not_nil sep s).
      * intros _. now apply IH.
      * discriminate.
  - intros H. now rewrite (split_without _ _ H).
Qed.

Lemma storeMedia_returns (entropy : nat -> N)
    (dataUrl originalName mimeType : string) (w : MediaStorage.World) :
  JS.includes "," dataUrl = true ->
  MediaStorage.disk w <> None ->
  exists f w', MediaStorage.storeMedia entropy dataUrl originalName mimeType w = (Ok f, w').
Proof.
  intros Hc Hd. rewrite storeMedia_unfold. cbv zeta.
  destruct (nth_error (JS.split "," dataUrl) 1) as [payload|] eqn:Hp.
  - destruct (MediaStorage.disk w) as [fs|]; [eauto|contradiction].
  - apply split_second in Hp. congruence.
Qed.

(** X3. [storeMedia] throws exactly when the data URL contains no comma or
    the uploads directory is missing. A call that throws leaves the
    directory as it was, and every call, failed or not, uses up one
    random draw. *)
Theorem storeMedia_throws_iff (entropy : nat -> N)
    (dataUrl originalName mimeType : string) (w : MediaStorage.World) :
  let outcome := MediaStorage.storeMedia entropy dataUrl originalName mimeType w in
  (throws (fst outcome) <->
   JS.includes "," dataUrl = false \/ MediaStorage.disk w = None)
  /\ (throws (fst outcome) -> MediaStorage.disk (snd outcome) = MediaStorage.disk w)
  /\ MediaStorage.draws (snd outcome) = S (MediaStorage.draws w).
Proof.
  cbv zeta. rewrite storeMedia_unfold. cbv zeta.
  rewrite <- split_second. unfold throws.
  destruct (nth_error (JS.split "," dataUrl) 1) as [payload|].
  - destruct (MediaStorage.disk w) as [fs|] eqn:Hd; cbn [fst snd].
    + repeat split.
      * intros [e He]. discriminate He.
      * intros [H|H]; discriminate H.
      * intros [e He]. discriminate He.
    + repeat split; eauto.
  - cbn [fst snd]. repeat split; eauto.
Qed.

(** X4. A call of [storeMedia] that returns has written exactly one file:
    the one named by the descriptor's url, holding the decoded payload,
    whose length is the descriptor's size. Every other file of the
    directory is as it was. *)
Theorem storeMedia_writes_one_file (entropy : nat -> N)
    (dataUrl originalName mimeType : string)
    (w w' : MediaStorage.World) (f : MediaStorage.MediaFile) :
  MediaStorage.storeMedia entropy dataUrl originalName mimeType w = (Ok f, w') ->
  exists fileName payload,
    nth_error (JS.split "," dataUrl) 1 = Some payload
    /\ fileName = (MediaStorage.id f ++ "." ++ MediaStorage.getFileExtension mimeType)%string
    /\ MediaStorage.url f = ("/uploads/" ++ fileName)%string
    /\ MediaStorage.readFile fileName w' = (Ok (JS.fromBase64 payload), w')
    /\ MediaStorage.size f = length (JS.fromBase64 payload)
    /\ forall other, other <> fileName ->
         fst (MediaStorage.readFile other w') = fst (MediaStorage.readFile other w).
Proof.
  rewrite storeMedia_unfold. cbv zeta.
  destruct (nth_error (JS.split "," dataUrl) 1) as [payload|]; [|discriminate].
  destruct (MediaStorage.disk w) as [fs|] eqn:Hd; [|discriminate].
  intros E. inversion E; subst; clear E.
  eexists _, payload. split; [reflexivity|]. split; [reflexivity|].
  split; [reflexivity|]. split.
  { unfold MediaStorage.readFile. cbn [MediaStorage.disk MediaStorage.id].
    now rewrite lookup_insert_eq. }
  split; [reflexivity|].
  intros other Hne. unfold MediaStorage.readFile.
  cbn [MediaStorage.disk MediaStorage.id] in *. rewrite Hd.
  rewrite lookup_insert_ne by congruence.
  now destruct (fs !! other).
Qed.

(** X4, witness. *)
Lemma storeMedia_writes_one_png :
  exists fileName payload,
    nth_error (JS.split "," "data:image/png;base64,iVBORw0KGgo=") 1 = Some payload
    /\ fileName
       = (MediaStorage.id
            {| MediaStorage.id := "0000000000000000";
               MediaStorage.originalName := "upload";
               MediaStorage.type := "image";
               MediaStorage.mimeType := "image/png";
               MediaStorage.size := 8;
               MediaStorage.url := "/uploads/0000000000000000.png";
               MediaStorage.thumbnailUrl := None |}
          ++ "." ++ MediaStorage.getFileExtension "image/png")%string
    /\ MediaStorage.url
         {| MediaStorage.id := "0000000000000000";
            MediaStorage.originalName := "upload";
            MediaStorage.type := "image";
            MediaStorage.mimeType := "image/png";
            MediaStorage.size := 8;
            MediaStorage.url := "/uploads/0000000000000000.png";
            MediaStorage.thumbnailUrl := None |} = ("/uploads/" ++ fileName)%string
    /\ MediaStorage.readFile fileName
         (snd (MediaStorage.storeMedia zeroEntropy "data:image/png;base64,iVBORw0KGgo="
                 "upload" "image/png" freshDisk))
       = (Ok (JS.fromBase64 payload),
          snd (MediaStorage.storeMedia zeroEntropy "data:image/png;base64,iVBORw0KGgo="
                 "upload" "image/png" freshDisk))
    /\ MediaStorage.size
         {| MediaStorage.id := "0000000000000000";
            MediaStorage.originalName := "upload";
            MediaStorage.type := "image";
            MediaStorage.mimeType := "image/png";
            MediaStorage.size := 8;
            MediaStorage.url := "/uploads/0000000000000000.png";
            MediaStorage.thumbnailUrl := None |} = length (JS.fromBase64 payload)
    /\ forall other, other <> fileName ->
         fst (MediaStorage.readFile other
                (snd (MediaStorage.storeMedia zeroEntropy
                        "data:image/png;base64,iVBORw0KGgo=" "upload" "image/png" freshDisk)))
         = fst (MediaStorage.readFile other freshDisk).
Proof.
  apply (storeMedia_writes_one_file zeroEntropy
           "data:image/png;base64,iVBORw0KGgo=" "upload" "image/png" freshDisk).
  vm_compute. reflexivity.
Defined.

(** ** Identifiers *)

Lemma toHex_length (buf : list Byte.byte) :
  String.length (JS.toHex buf) = 2 * length buf.
Proof.
  induction buf as [|b buf IH]; [reflexivity|].
  cbn [JS.toHex String.length length]. rewrite IH. lia.
Qed.

Lemma bytes_of_N_length (len : nat) (n : N) :
  length (MediaStorage.bytes_of_N len n) = len.
Proof.
  revert n. induction len as [|len IH]; intros n; [reflexivity|].
  cbn [MediaStorage.bytes_of_N]. rewrite length_app, IH. simpl. lia.
Qed.

Lemma hex_digit_code (n : N) :
  (n < 16)%N ->
  N_of_ascii (JS.hex_digit n) = (if (n <? 10)%N then 48 + n else 87 + n)%N.
Proof.
  intros Hn. unfold JS.hex_digit.
  destruct (N.ltb_spec n 10); apply N_ascii_embedding; lia.
Qed.

Lemma hex_digit_inj (n m : N) :
  (n < 16)%N -> (m < 16)%N -> JS.hex_digit n = JS.hex_digit m -> n = m.
Proof.
  intros Hn Hm E. apply (f_equal N_of_ascii) in E.
  rewrite !hex_digit_code in E by assumption.
  destruct (N.ltb_spec n 10), (N.ltb_spec m 10); lia.
Qed.

Lemma toHex_inj (buf1 buf2 : list Byte.byte) :
  JS.toHex buf1 = JS.toHex buf2 -> buf1 = buf2.
Proof.
  revert buf2. induction buf1 as [|a buf1 IH]; intros [|b buf2] E;
    try reflexivity; try discriminate E.
  cbn [JS.toHex] in E. injection E as Hhi Hlo Hrest.
  pose proof (Byte.to_N_bounded a). pose proof (Byte.to_N_bounded b).
  apply hex_digit_inj in Hhi; [|div_lia|div_lia].
  apply hex_digit_inj in Hlo; [|div_lia|div_lia].
  assert (Hab : Byte.to_N a = Byte.to_N b) by div_lia.
  f_equal; [|now apply IH].
  pose proof (Byte.of_to_N a) as Ea. pose proof (Byte.of_to_N b) as Eb.
  rewrite Hab in Ea. congruence.
Qed.

Lemma byte_of_N_value (n : N) : Byte.to_N (JS.byte_of_N n) = (n mod 256)%N.
Proof.
  unfold JS.byte_of_N.
  destruct (Byte.of_N (n mod 256)) as [b|] eqn:E.
  - now apply Byte.to_of_N.
  - apply Byte.of_N_None_iff in E.
    pose proof (N.mod_upper_bound n 256). lia.
Qed.

Lemma bytes_of_N_mod (len : nat) (n m : N) :
  MediaStorage.bytes_of_N len n = MediaStorage.bytes_of_N len m <->
  (n mod 256 ^ N.of_nat len = m mod 256 ^ N.of_nat len)%N.
Proof.
  revert n m. induction len as [|len IH]; intros n m.
  - simpl. rewrite !N.mod_1_r. tauto.
  - cbn [MediaStorage.bytes_of_N].
    replace (256 ^ N.of_nat (S len))%N with (256 * 256 ^ N.of_nat len)%N
      by (rewrite Nat2N.inj_succ, N.pow_succ_r'; reflexivity).
    rewrite !N.Div0.mod_mul_r.
    specialize (IH (n / 256)%N (m / 256)%N).
    split.
    + intros E. apply app_inj_tail in E as [E1 E2].
      apply IH in E1. apply (f_equal Byte.to_N) in E2.
      rewrite !byte_of_N_value in E2. congruence.
    + intros E.
      assert (Hn : (n mod 256 < 256)%N) by (apply N.mod_upper_bound; discriminate).
      assert (Hm : (m mod 256 < 256)%N) by (apply N.mod_upper_bound; discriminate).
      remember (n mod 256)%N as rn eqn:Ern.
      remember (m mod 256)%N as rm eqn:Erm.
      remember ((n / 256) mod 256 ^ N.of_nat len)%N as qn eqn:Eqn.
      remember ((m / 256) mod 256 ^ N.of_nat len)%N as qm eqn:Eqm.
      assert (E0 : rn = rm) by lia.
      assert (E1 : qn = qm) by lia.
      apply IH in E1. rewrite E1. f_equal. f_equal.
      unfold JS.byte_of_N. now rewrite <- Ern, <- Erm, E0.
Qed.

(** X5. The identifier drawn by [generateMediaId] is a string of sixteen
    characters without a dot, and the call uses up one draw without
    touching the directory. Two identifiers are equal exactly when the
    random values they were drawn from agree modulo 2^64. *)
Theorem generateMediaId_sixteen_hex (entropy : nat -> N) (w1 w2 : MediaStorage.World) :
  exists id1 id2 w1' w2',
    MediaStorage.generateMediaId entropy w1 = (Ok id1, w1')
    /\ MediaStorage.generateMediaId entropy w2 = (Ok id2, w2')
    /\ String.length id1 = 16
    /\ JS.includes "." id1 = false
    /\ MediaStorage.draws w1' = S (MediaStorage.draws w1)
    /\ MediaStorage.disk w1' = MediaStorage.disk w1
    /\ (id1 = id2 <->
        (entropy (MediaStorage.draws w1) mod 2 ^ 64
         = entropy (MediaStorage.draws w2) mod 2 ^ 64)%N).
Proof.
  eexists _, _, _, _. split; [reflexivity|]. split; [reflexivity|].
  split; [now rewrite toHex_length, bytes_of_N_length|].
  split; [apply toHex_without_dot|].
  split; [reflexivity|]. split; [reflexivity|].
  change (2 ^ 64)%N with (256 ^ N.of_nat 8)%N.
  rewrite <- bytes_of_N_mod. split.
  - apply toHex_inj.
  - now intros ->.
Qed.

(** ** Which file [getMedia] reads *)

Lemma filter_skip {A : Type} (p : A -> bool) (pre : list A) (rest : list A) :
  (forall x, In x pre -> p x = false) ->
  List.filter p (pre ++ rest) = List.filter p rest.
Proof.
  induction pre as [|x pre IH]; intros H; [reflexivity|].
  cbn [app List.filter]. rewrite (H x) by now left.
  apply IH. intros y Hy. apply H. now right.
Qed.

(** X6. When several files carry the same identifier, [getMedia] reads the
    one whose extension comes first in the order jpg, jpeg, png, gif,
    webp, mp4, webm, mov: if no file exists for the extensions before
    [ext] and one exists for [ext], that one is returned. *)
Theorem getMedia_first_extension (mediaId ext : string) (before after : list string)
    (w : MediaStorage.World) (fs : gmap string (list Byte.byte))
    (buffer : list Byte.byte) :
  MediaStorage.extensions = before ++ ext :: after ->
  MediaStorage.disk w = Some fs ->
  (forall e, In e before -> fs !! (mediaId ++ "." ++ e)%string = None) ->
  fs !! (mediaId ++ "." ++ ext)%string = Some buffer ->
  MediaStorage.getMedia mediaId w = (Ok (Some buffer), w).
Proof.
  intros Hext Hdisk Hbefore Hfile.
  unfold MediaStorage.getMedia, MediaStorage.findMediaFile, try_catch, bind, ret.
  rewrite Hext, List.map_app, filter_skip.
  - cbn [List.map List.filter].
    assert (He : MediaStorage.existsSync w (mediaId ++ "." ++ ext)%string = true).
    { apply existsSync_true. eauto. }
    rewrite He. unfold MediaStorage.readFile. now rewrite Hdisk, Hfile.
  - intros x Hx. apply in_map_iff in Hx as (e & <- & He).
    unfold MediaStorage.existsSync. rewrite Hdisk, (Hbefore e He).
    apply bool_decide_eq_false. now intros [? ?].
Qed.

(** X6, witness. A directory holding both [a.png] and [a.mp4]: the PNG is
    read. *)
Lemma getMedia_prefers_png_to_mp4 :
  MediaStorage.getMedia "a"
    {| MediaStorage.disk := Some (<["a.mp4" := [Byte.x00]]> {["a.png" := [Byte.x89]]});
       MediaStorage.draws := 0 |}
  = (Ok (Some [Byte.x89]),
     {| MediaStorage.disk := Some (<["a.mp4" := [Byte.x00]]> {["a.png" := [Byte.x89]]});
        MediaStorage.draws := 0 |}).
Proof.
  apply (getMedia_first_extension "a" "png" ["jpg"; "jpeg"]
           ["gif"; "webp"; "mp4"; "webm"; "mov"] _
           (<["a.mp4" := [Byte.x00]]> {["a.png" := [Byte.x89]]}) [Byte.x89]).
  - reflexivity.
  - reflexivity.
  - intros e [<-|[<-|[]]]; vm_compute; reflexivity.
  - vm_compute. reflexivity.
Defined.

(** ** From a stored file to its download *)

Lemma mimeToExt_contentType (mimeType ext : string) :
  MediaStorage.mimeToExt !! mimeType = Some ext ->
  JS.split "." ext = [ext]
  /\ Routes.contentTypeOf (Some (JS.toLowerCase ext))
     = (if String.eqb mimeType "image/jpg" then "image/jpeg" else mimeType).
Proof.
  intros Hm. apply elem_of_list_to_map_2 in Hm.
  repeat (apply elem_of_cons in Hm as [Hm|Hm];
          [inversion Hm; subst; split; vm_compute; reflexivity|]).
  now apply elem_of_nil in Hm.
Qed.

(** X7. The url that [storeMedia] returns for a MIME type of the extension
    table is served by [GET /uploads/:filename]: with the directory in
    place and an identifier not yet in use, a request for the file name
    after [/uploads/] answers 200 with the decoded payload, the one-year
    cache header, and the stored MIME type as content type ([image/jpeg]
    for [image/jpg]). *)
Theorem stored_url_is_served (entropy : nat -> N)
    (dataUrl originalName mimeType ext base64Data : string)
    (w : MediaStorage.World) (fs : gmap string (list Byte.byte)) :
  MediaStorage.disk w = Some fs ->
  nth_error (JS.split "," dataUrl) 1 = Some base64Data ->
  MediaStorage.mimeToExt !! mimeType = Some ext ->
  (forall e, In e MediaStorage.extensions ->
     fs !! (JS.toHex (MediaStorage.bytes_of_N 8 (entropy (MediaStorage.draws w)))
              ++ "." ++ e)%string = None) ->
  exists f w' filename,
    MediaStorage.storeMedia entropy dataUrl originalName mimeType w = (Ok f, w')
    /\ MediaStorage.url f = ("/uploads/" ++ filename)%string
    /\ Routes.getUploads filename w'
       = (Ok {| Routes.statusCode := 200;
                Routes.headers :=
                  [("Content-Type",
                    if String.eqb mimeType "image/jpg" then "image/jpeg" else mimeType);
                   ("Cache-Control", "public, max-age=31536000")];
                Routes.body := Routes.Send (JS.fromBase64 base64Data) |}, w').
Proof.
  intros Hdisk Hp Hm Hfresh.
  destruct (storeMedia_getMedia_known entropy dataUrl originalName mimeType _ w fs
              Hdisk Hp Hfresh ext Hm) as (f & w' & Hs & Hg).
  exists f, w', (MediaStorage.id f ++ "." ++ ext)%string.
  split; [exact Hs|].
  pose proof (getFileExtension_known _ _ Hm) as [Hext _].
  assert (Hid : MediaStorage.id f
                = JS.toHex (MediaStorage.bytes_of_N 8 (entropy (MediaStorage.draws w)))
                /\ MediaStorage.url f
                   = ("/uploads/" ++ MediaStorage.id f ++ "." ++ ext)%string).
  { rewrite storeMedia_unfold in Hs. cbv zeta in Hs. rewrite Hp, Hdisk, Hext in Hs.
    inversion Hs; subst. split; reflexivity. }
  destruct Hid as [Hid Hurl]. split; [exact Hurl|].
  rewrite getUploads_unfold.
  assert (Hsplit : JS.split "." (MediaStorage.id f ++ "." ++ ext)%string
                   = [MediaStorage.id f; ext]).
  { destruct (mimeToExt_contentType _ _ Hm) as [Hone _].
    change (MediaStorage.id f ++ "." ++ ext)%string
      with (MediaStorage.id f ++ String "." ext)%string.
    rewrite split_at_first, Hone; [reflexivity|].
    rewrite Hid. apply toHex_without_dot. }
  unfold Routes.mediaIdOf, Routes.extOf. rewrite Hsplit. cbn [hd].
  rewrite Hg. cbn [fst JS.pop last fmap option_fmap option_map].
  destruct (mimeToExt_contentType _ _ Hm) as [_ Hct]. now rewrite Hct.
Qed.

(** X7, witness. *)
Lemma stored_png_is_served :
  exists f w' filename,
    MediaStorage.storeMedia zeroEntropy "data:image/png;base64,iVBORw0KGgo="
      "upload" "image/png" freshDisk = (Ok f, w')
    /\ MediaStorage.url f = ("/uploads/" ++ filename)%string
    /\ Routes.getUploads filename w'
       = (Ok {| Routes.statusCode := 200;
                Routes.headers :=
                  [("Content-Type",
                    if String.eqb "image/png" "image/jpg" then "image/jpeg" else "image/png");
                   ("Cache-Control", "public, max-age=31536000")];
                Routes.body := Routes.Send (JS.fromBase64 "iVBORw0KGgo=") |}, w').
Proof.
  apply (stored_url_is_served zeroEntropy "data:image/png;base64,iVBORw0KGgo="
           "upload" "image/png" "png" "iVBORw0KGgo=" freshDisk ∅).
  - reflexivity.
  - reflexivity.
  - vm_compute. reflexivity.
  - intros e _. apply lookup_empty.
Defined.

(** ** The uploads directory across a run *)

Lemma local_entry_effect (entropy : nat -> N) (media pushed : Media.t)
    (w w' : MediaStorage.World) :
  MediaStorage.processEntry entropy media w = (Ok pushed, w') ->
  MediaStorage.draws w' = MediaStorage.draws w + (if isDataUrl media then 1 else 0)
  /\ (MediaStorage.disk w = None <-> MediaStorage.disk w' = None)
  /\ (forall fileName, MediaStorage.existsSync w fileName = true ->
                       MediaStorage.existsSync w' fileName = true).
Proof.
  destruct (isDataUrl media) eqn:Hd.
  - rewrite (local_entry_data _ _ _ Hd), storeMedia_unfold. cbv zeta.
    destruct (nth_error _ 1) as [payload|].
    + destruct (MediaStorage.disk w) as [fs|] eqn:Hdisk; intros E; inversion E; subst;
        cbn [MediaStorage.draws MediaStorage.disk].
      * split; [lia|]. split; [split; discriminate|].
        intros fileName. unfold MediaStorage.existsSync.
        cbn [MediaStorage.disk]. rewrite Hdisk, !bool_decide_eq_true.
        intros [buffer Hb]. rewrite lookup_insert. case_decide; eauto.
      * split; [lia|]. split; [tauto|].
        intros fileName. unfold MediaStorage.existsSync.
        cbn [MediaStorage.disk]. now rewrite Hdisk.
    + intros E; inversion E; subst; cbn [MediaStorage.draws MediaStorage.disk].
      split; [lia|]. split; [tauto|].
      intros fileName. unfold MediaStorage.existsSync. now cbn [MediaStorage.disk].
  - rewrite (local_entry_plain _ _ _ Hd). intros E; inversion E; subst.
    split; [lia|]. split; tauto.
Qed.

(** X8. The local service never removes a file: every file name present
    before [processMediaUrls] is present after it, a missing uploads
    directory stays missing and an existing one stays, and the run uses
    one random draw for each entry whose url is a data URL. *)
Theorem local_processMediaUrls_keeps_files (entropy : nat -> N)
    (mediaUrls : list Media.t) (w : MediaStorage.World) :
  exists out w',
    MediaStorage.processMediaUrls entropy mediaUrls w = (Ok out, w')
    /\ MediaStorage.draws w'
       = MediaStorage.draws w + length (List.filter isDataUrl mediaUrls)
    /\ (MediaStorage.disk w = None <-> MediaStorage.disk w' = None)
    /\ (forall fileName, MediaStorage.existsSync w fileName = true ->
                         MediaStorage.existsSync w' fileName = true).
Proof.
  destruct (local_runs entropy mediaUrls w) as (out & w' & Hrun & Hruns).
  exists out, w'. split; [exact Hrun|]. clear Hrun.
  induction Hruns as [w|w a b w1 items outs w2 Hb _ IH].
  - simpl. split; [lia|]. split; tauto.
  - apply local_entry_effect in Hb as (Hd & Hdisk & Hfiles).
    destruct IH as (IHd & IHdisk & IHfiles).
    cbn [List.filter]. split.
    + rewrite IHd, Hd. destruct (isDataUrl a); simpl; lia.
    + split; [tauto|]. auto.
Qed.

(** X9. The constructor's [ensureDirectories] leaves an existing
    directory with all its files, and creates an empty one when [mkdir]
    succeeds. When [mkdir] fails the error is swallowed, the directory
    is still missing, and every later [processMediaUrls] gives its input
    back without having stored anything. *)
Theorem ensureDirectories_outcomes (entropy : nat -> N) (mkdir_ok : bool)
    (w : MediaStorage.World) (mediaUrls : list Media.t) :
  let w0 := MediaStorage.ensureDirectories mkdir_ok w in
  MediaStorage.ensureDirectories mkdir_ok w0 = w0
  /\ (forall fs, MediaStorage.disk w = Some fs -> w0 = w)
  /\ (MediaStorage.disk w = None ->
      if mkdir_ok
      then MediaStorage.disk w0 = Some ∅
      else MediaStorage.disk w0 = None
           /\ exists w',
                MediaStorage.processMediaUrls entropy mediaUrls w0 = (Ok mediaUrls, w')
                /\ MediaStorage.disk w' = None).
Proof.
  cbv zeta. unfold MediaStorage.ensureDirectories.
  destruct (MediaStorage.disk w) as [fs|] eqn:Hdisk.
  - rewrite Hdisk. split; [reflexivity|]. split; [reflexivity|discriminate].
  - destruct mkdir_ok; cbn [MediaStorage.disk]; rewrite ?Hdisk.
    + split; [reflexivity|]. split; [discriminate|reflexivity].
    + split; [reflexivity|]. split; [discriminate|]. intros _. split; [reflexivity|].
      destruct (local_runs entropy mediaUrls w) as (out & w' & Hrun & Hruns).
      exists w'. rewrite Hrun.
      assert (G : out = mediaUrls /\ MediaStorage.disk w' = None);
        [|destruct G as [-> G]; split; [reflexivity|exact G]].
      clear Hrun. induction Hruns as [w|w a b w1 items outs w2 Hb _ IH].
      * now split.
      * assert (Hab : b = a /\ MediaStorage.disk w1 = None).
        { destruct (isDataUrl a) eqn:Hd.
          - rewrite (local_entry_data _ _ _ Hd), storeMedia_unfold in Hb.
            cbv zeta in Hb. rewrite Hdisk in Hb.
            destruct (nth_error _ 1); inversion Hb; subst; now split.
          - rewrite (local_entry_plain _ _ _ Hd) in Hb. inversion Hb; subst.
            now split. }
        destruct Hab as [-> Hd1]. destruct (IH Hd1) as [-> Hd2]. now split.
Qed.

(** X10. With the uploads directory in place, a list in which every data
    URL contains a comma comes out of the local service without any data
    URL left, and processing the result again returns it unchanged and
    leaves the world as it is. *)
Theorem local_processMediaUrls_normalizes (entropy : nat -> N)
    (mediaUrls : list Media.t) (w : MediaStorage.World) :
  MediaStorage.disk w <> None ->
  Forall (fun media => isDataUrl media = true ->
                       JS.includes "," (Media.url media) = true) mediaUrls ->
  exists out w',
    MediaStorage.processMediaUrls entropy mediaUrls w = (Ok out, w')
    /\ Forall (fun media => isDataUrl media = false) out
    /\ MediaStorage.processMediaUrls entropy out w' = (Ok out, w').
Proof.
  intros Hdisk Hcomma.
  destruct (local_runs entropy mediaUrls w) as (out & w' & Hrun & Hruns).
  exists out, w'. split; [exact Hrun|].
  assert (G : Forall (fun media => isDataUrl media = false) out);
    [|split; [exact G|now apply local_all_plain]].
  clear Hrun. induction Hruns as [w|w a b w1 items outs w2 Hb _ IH]; [constructor|].
  inversion Hcomma as [|? ? Ha Hrest]; subst.
  pose proof (local_entry_effect _ _ _ _ _ Hb) as (_ & Hd1 & _).
  constructor; [|apply IH; [tauto|exact Hrest]].
  destruct (isDataUrl a) eqn:Hd.
  - specialize (Ha eq_refl).
    rewrite (local_entry_data _ _ _ Hd) in Hb.
    destruct (MediaStorage.storeMedia _ _ _ _ w) as [[f|e] wx] eqn:Hs.
    + inversion Hb; subst. apply storeMedia_type in Hs as [_ Hurl].
      unfold isDataUrl. cbn [Media.url]. unfold JS.startsWith in *.
      apply String.prefix_correct in Hurl.
      destruct (String.prefix "data:" (MediaStorage.url f)) eqn:Hp; [|reflexivity].
      apply String.prefix_correct in Hp.
      destruct (MediaStorage.url f) as [|c u]; simpl in Hurl, Hp; congruence.
    + exfalso.
      destruct (storeMedia_returns entropy (Media.url a) "upload"
                  (MediaStorage.mimeOf (Media.url a)) w Ha Hdisk) as (f & w3 & Hok).
      congruence.
  - rewrite (local_entry_plain _ _ _ Hd) in Hb. now inversion Hb; subst.
Qed.

(** X10, witness. An image data URL and a plain link on an empty
    directory. *)
Lemma local_processMediaUrls_normalizes_two :
  exists out w',
    MediaStorage.processMediaUrls zeroEntropy
      [{| Media.type := "image"; Media.url := "data:image/png;base64,iVBORw0KGgo=";
          Media.thumbnailUrl := None |};
       {| Media.type := "image"; Media.url := "https://cdn.example/x.png";
          Media.thumbnailUrl := None |}] freshDisk = (Ok out, w')
    /\ Forall (fun media => isDataUrl media = false) out
    /\ MediaStorage.processMediaUrls zeroEntropy out w' = (Ok out, w').
Proof.
  apply (local_processMediaUrls_normalizes zeroEntropy
           [{| Media.type := "image"; Media.url := "data:image/png;base64,iVBORw0KGgo=";
               Media.thumbnailUrl := None |};
            {| Media.type := "image"; Media.url := "https://cdn.example/x.png";
               Media.thumbnailUrl := None |}] freshDisk).
  - discriminate.
  - repeat constructor; intros H; vm_compute in H |- *; congruence.
Defined.

(** ** Requests sent to the provider *)

Section CloudRequests.

Variable imgbbApiKey : option string.
Variable network : nat -> CloudMedia.FormData -> CloudMedia.FetchOutcome.

(** The forms a configured service posts for a list: one for each entry
    that is an image with a data URL, in order. *)
Local Abbreviation formsFor mediaUrls :=
  (match imgbbApiKey with
   | Some key =>
       if JS.truthy key
       then List.map (fun media => CloudMedia.buildForm key (Media.url media) None)
              (List.filter (fun media => isDataUrl media
                                         && String.eqb (Media.type media) "image")
                 mediaUrls)
       else []
   | None => []
   end).

Lemma uploadImage_requests (dataUrl : string) (name : option string)
    (w : CloudMedia.World) :
  CloudMedia.requests (snd (CloudMedia.uploadImage imgbbApiKey network dataUrl name w))
  = CloudMedia.requests w
    ++ match imgbbApiKey with
       | Some key =>
           if JS.truthy key then [CloudMedia.buildForm key dataUrl name] else []
       | None => []
       end.
Proof.
  rewrite uploadImage_unfold.
  destruct imgbbApiKey as [key|]; [|now rewrite app_nil_r].
  destruct (JS.truthy key); [|now rewrite app_nil_r].
  cbv zeta. destruct (network _ _) as [reason|response]; [reflexivity|].
  destruct (CloudMedia.ok response); [|reflexivity].
  destruct (CloudMedia.json response) as [reply|]; [|reflexivity].
  destruct (CloudMedia.success reply); [|reflexivity].
  destruct (CloudMedia.data reply); reflexivity.
Qed.

Lemma cloud_entry_requests (media pushed : Media.t) (w w' : CloudMedia.World) :
  CloudMedia.processEntry imgbbApiKey network media w = (Ok pushed, w') ->
  Media.type pushed = Media.type media
  /\ CloudMedia.requests w' = CloudMedia.requests w ++ formsFor [media].
Proof.
  cbn [List.filter].
  destruct (String.eqb_spec (Media.type media) "image") as [Hty|Hty].
  - destruct (isDataUrl media) eqn:Hd; cbn [andb].
    + rewrite (cloud_entry_image _ _ _ _ Hd Hty).
      pose proof (uploadImage_requests (Media.url media) None w) as Hreq.
      destruct (CloudMedia.uploadImage _ _ _ None w) as [[r|e] w1];
        intros E; inversion E; subst; cbn [snd] in Hreq; rewrite Hreq;
        (split; [reflexivity|]);
        destruct imgbbApiKey as [key|]; try reflexivity;
        destruct (JS.truthy key); reflexivity.
    + rewrite (cloud_entry_plain _ _ _ _ Hd). intros E; inversion E; subst.
      split; [reflexivity|].
      destruct imgbbApiKey as [key|]; [destruct (JS.truthy key)|];
        now rewrite app_nil_r.
  - rewrite (cloud_entry_not_image _ _ _ _ Hty). intros E; inversion E; subst.
    split; [reflexivity|]. rewrite andb_false_r.
    destruct imgbbApiKey as [key|]; [destruct (JS.truthy key)|];
      now rewrite app_nil_r.
Qed.

(** X11. The cloud service never changes the type of an entry: at every
    position the output entry has the type of the input entry. *)
Theorem cloud_processMediaUrls_keeps_types (mediaUrls : list Media.t)
    (w : CloudMedia.World) :
  exists out w',
    CloudMedia.processMediaUrls imgbbApiKey network mediaUrls w = (Ok out, w')
    /\ Forall2 (fun media pushed => Media.type pushed = Media.type media) mediaUrls out.
Proof.
  destruct (cloud_runs imgbbApiKey network mediaUrls w) as (out & w' & Hrun & Hruns).
  exists out, w'. split; [exact Hrun|].
  eapply runs_Forall2; [|exact Hruns].
  intros media pushed w1 w2 Hb. now apply cloud_entry_requests in Hb.
Qed.

(** X12. A run of the cloud service only adds to the requests already
    sent. With a key configured it posts exactly one form for each entry
    that is an image with a data URL, in the order of the list, carrying
    the key and the text after the first comma of the url; without a key
    it posts nothing. Nothing is retried. *)
Theorem cloud_processMediaUrls_requests (mediaUrls : list Media.t)
    (w : CloudMedia.World) :
  exists out w',
    CloudMedia.processMediaUrls imgbbApiKey network mediaUrls w = (Ok out, w')
    /\ CloudMedia.requests w'
       = CloudMedia.requests w
         ++ match imgbbApiKey with
            | Some key =>
                if JS.truthy key
                then List.map
                       (fun media =>
                          [("key", key);
                           ("image",
                            CloudMedia.toString
                              (nth_error (JS.split "," (Media.url media)) 1))])
                       (List.filter (fun media => isDataUrl media
                                                  && String.eqb (Media.type media) "image")
                          mediaUrls)
                else []
            | None => []
            end.
Proof.
  destruct (cloud_runs imgbbApiKey network mediaUrls w) as (out & w' & Hrun & Hruns).
  exists out, w'. split; [exact Hrun|]. clear Hrun.
  change (CloudMedia.requests w' = CloudMedia.requests w ++ formsFor mediaUrls).
  induction Hruns as [w|w a b w1 items outs w2 Hb _ IH].
  - destruct imgbbApiKey as [key|]; [destruct (JS.truthy key)|];
      now rewrite app_nil_r.
  - apply cloud_entry_requests in Hb as [_ Hb]. rewrite IH, Hb, <- app_assoc.
    f_equal. cbn [List.filter].
    destruct imgbbApiKey as [key|]; [destruct (JS.truthy key)|]; try reflexivity.
    destruct (isDataUrl a && String.eqb (Media.type a) "image"); reflexivity.
Qed.

(** X13. [optimizeUrl] gives back a url that is not a data URL, or whose
    type is not [image], without sending anything. For an image data URL
    it returns the url of the upload, and, unlike [processMediaUrls], it
    throws whenever [uploadImage] throws. *)
Theorem optimizeUrl_outcomes (dataUrl type : string) (w : CloudMedia.World) :
  (JS.startsWith dataUrl "data:" = false \/ type <> "image" ->
   CloudMedia.optimizeUrl imgbbApiKey network dataUrl type w = (Ok dataUrl, w))
  /\ (JS.startsWith dataUrl "data:" = true -> type = "image" ->
      CloudMedia.optimizeUrl imgbbApiKey network dataUrl type w
      = match CloudMedia.uploadImage imgbbApiKey network dataUrl None w with
        | (Ok result, w') => (Ok (CloudMedia.url result), w')
        | (Throw e, w') => (Throw e, w')
        end)
  /\ (throws (fst (CloudMedia.optimizeUrl imgbbApiKey network dataUrl type w)) <->
      JS.startsWith dataUrl "data:" = true /\ type = "image"
      /\ throws (fst (CloudMedia.uploadImage imgbbApiKey network dataUrl None w))).
Proof.
  unfold CloudMedia.optimizeUrl, bind, ret, throws.
  destruct (JS.startsWith dataUrl "data:"); cbn [negb].
  - destruct (String.eqb_spec type "image") as [Hty|Hty].
    + split; [intros [H|H]; [discriminate H|contradiction]|].
      split; [reflexivity|].
      destruct (CloudMedia.uploadImage _ _ _ None w) as [[r|e] w1]; cbn [fst].
      * split; [intros [e He]; discriminate He|intros (_ & _ & e & He); discriminate He].
      * split; eauto.
    + split; [reflexivity|]. split; [contradiction|].
      cbn [fst]. split; [intros [e He]; discriminate He|tauto].
  - split; [reflexivity|]. split; [discriminate|].
    cbn [fst]. split; [intros [e He]; discriminate He|intros [H _]; discriminate H].
Qed.

End CloudRequests.

(** ** Attachments of an announcement *)

Lemma uploadImage_without_key (imgbbApiKey : option string)
    (network : nat -> CloudMedia.FormData -> CloudMedia.FetchOutcome)
    (dataUrl : string) (name : option string) (w : CloudMedia.World) :
  CloudMedia.configured imgbbApiKey = false ->
  throws (fst (CloudMedia.uploadImage imgbbApiKey network dataUrl name w)).
Proof.
  unfold CloudMedia.configured, CloudMedia.uploadImage, throw.
  destruct imgbbApiKey as [key|]; cbn [JS.truthy_opt]; [intros ->|intros _]; eexists; reflexivity.
Qed.

Section AnnouncementFacts.

Variable imgbbApiKey : option string.
Variable network : nat -> CloudMedia.FormData -> CloudMedia.FetchOutcome.

Local Abbreviation attach := (Announcement.attach imgbbApiKey network).
Local Abbreviation attachAll := (Announcement.attachAll imgbbApiKey network).

Lemma attach_image (mediaUrls : list Media.t) (file : Announcement.File)
    (w : CloudMedia.World) :
  JS.startsWith (Announcement.mimetype file) "image/" = true ->
  attach mediaUrls file w =
  match CloudMedia.uploadImage imgbbApiKey network (Announcement.dataUrlOf file)
          (Some (Announcement.originalname file)) w with
  | (Ok result, w') =>
      (Ok (mediaUrls ++ [{| Media.type := "image";
                            Media.url := CloudMedia.url result;
                            Media.thumbnailUrl := CloudMedia.thumbnailUrl result |}]), w')
  | (Throw _, w') => (Ok mediaUrls, w')
  end.
Proof.
  intros Hi. unfold Announcement.attach, try_catch, bind, ret. rewrite Hi.
  now destruct (CloudMedia.uploadImage _ _ _ _ w) as [[r|e] w'].
Qed.

Lemma attach_other (mediaUrls : list Media.t) (file : Announcement.File)
    (w : CloudMedia.World) :
  JS.startsWith (Announcement.mimetype file) "image/" = false ->
  attach mediaUrls file w = (Ok mediaUrls, w).
Proof.
  intros Hi. unfold Announcement.attach, try_catch, bind, ret. rewrite Hi.
  now destruct (JS.startsWith (Announcement.mimetype file) "video/").
Qed.

(** The forms posted for the files of an announcement by a configured
    service: one for each image file. *)
Local Abbreviation formsOf files :=
  (match imgbbApiKey with
   | Some key =>
       if JS.truthy key
       then List.map (fun file => CloudMedia.buildForm key (Announcement.dataUrlOf file)
                                    (Some (Announcement.originalname file)))
              (List.filter (fun file => JS.startsWith (Announcement.mimetype file) "image/")
                 files)
       else []
   | None => []
   end).

Lemma attachAll_spec (files : list Announcement.File) :
  forall (mediaUrls : list Media.t) (w : CloudMedia.World),
  exists added w',
    attachAll files mediaUrls w = (Ok (mediaUrls ++ added), w')
    /\ Forall (fun media => Media.type media = "image") added
    /\ length added
       <= length (List.filter
                    (fun file => JS.startsWith (Announcement.mimetype file) "image/") files)
    /\ CloudMedia.requests w' = CloudMedia.requests w ++ formsOf files
    /\ (CloudMedia.configured imgbbApiKey = false -> added = []).
Proof.
  induction files as [|file files IH]; intros mediaUrls w.
  - exists [], w. cbn [Announcement.attachAll List.filter List.map]. unfold ret.
    rewrite app_nil_r. repeat split; auto.
    destruct imgbbApiKey as [key|]; [destruct (JS.truthy key)|]; now rewrite app_nil_r.
  - cbn [Announcement.attachAll List.filter]. unfold bind at 1.
    destruct (JS.startsWith (Announcement.mimetype file) "image/") eqn:Hi.
    + rewrite (attach_image _ _ _ Hi).
      pose proof (uploadImage_requests imgbbApiKey network (Announcement.dataUrlOf file)
                    (Some (Announcement.originalname file)) w) as Hreq.
      pose proof (uploadImage_without_key imgbbApiKey network (Announcement.dataUrlOf file)
                    (Some (Announcement.originalname file)) w) as Hkey.
      destruct (CloudMedia.uploadImage _ _ _ _ w) as [[r|e] w1]; cbn [snd fst] in Hreq, Hkey.
      * destruct (IH (mediaUrls ++ [{| Media.type := "image";
                                       Media.url := CloudMedia.url r;
                                       Media.thumbnailUrl := CloudMedia.thumbnailUrl r |}])
                    w1) as (added & w' & Hrun & Hty & Hlen & Hreqs & Hnokey).
        eexists (_ :: added), w'. rewrite Hrun, <- app_assoc. split; [reflexivity|].
        split; [constructor; [reflexivity|exact Hty]|].
        split; [cbn [length]; lia|].
        split.
        -- rewrite Hreqs, Hreq, <- app_assoc. f_equal.
           destruct imgbbApiKey as [key|]; [destruct (JS.truthy key)|]; reflexivity.
        -- intros Hc. exfalso. specialize (Hkey Hc). destruct Hkey as [e He].
           discriminate He.
      * destruct (IH mediaUrls w1) as (added & w' & Hrun & Hty & Hlen & Hreqs & Hnokey).
        exists added, w'. rewrite Hrun. split; [reflexivity|].
        split; [exact Hty|]. split; [cbn [length]; lia|].
        split; [|exact Hnokey].
        rewrite Hreqs, Hreq, <- app_assoc. f_equal.
        destruct imgbbApiKey as [key|]; [destruct (JS.truthy key)|]; reflexivity.
    + rewrite (attach_other _ _ _ Hi).
      destruct (IH mediaUrls w) as (added & w' & Hrun & Hty & Hlen & Hreqs & Hnokey).
      exists added, w'. rewrite Hrun. repeat split; assumption.
Qed.


(** X15. The form posted for an image file of an announcement carries the
    key, the base64 text of the file's buffer, which decodes to the file's
    bytes, and the file's original name when it is not empty. The MIME
    type is taken to contain no comma. *)
Theorem announcement_form_carries_file (key : string) (file : Announcement.File) :
  JS.includes "," (Announcement.mimetype file) = false ->
  CloudMedia.buildForm key (Announcement.dataUrlOf file)
    (Some (Announcement.originalname file))
  = [("key", key); ("image", Buffer.toBase64 (Announcement.buffer file))]
      ++ (if JS.truthy (Announcement.originalname file)
          then [("name", Announcement.originalname file)] else [])
  /\ JS.fromBase64 (Buffer.toBase64 (Announcement.buffer file)) = Announcement.buffer file.
Proof.
  intros Hm. split; [|apply decode_toBase64].
  unfold CloudMedia.buildForm, Announcement.dataUrlOf.
  rewrite payload_of_data_url by (assumption || apply toBase64_without_comma).
  reflexivity.
Qed.

End AnnouncementFacts.

(** X15, witness. *)
Lemma announcement_form_carries_png :
  CloudMedia.buildForm "secret"
    (Announcement.dataUrlOf
       {| Announcement.mimetype := "image/png"; Announcement.originalname := "a.png";
          Announcement.buffer := [Byte.x89; Byte.x50; Byte.x4e; Byte.x47] |})
    (Some "a.png")
  = [("key", "secret"); ("image", Buffer.toBase64 [Byte.x89; Byte.x50; Byte.x4e; Byte.x47])]
      ++ (if JS.truthy "a.png" then [("name", "a.png")] else [])
  /\ JS.fromBase64 (Buffer.toBase64 [Byte.x89; Byte.x50; Byte.x4e; Byte.x47])
     = [Byte.x89; Byte.x50; Byte.x4e; Byte.x47].
Proof.
  apply (announcement_form_carries_file "secret"
           {| Announcement.mimetype := "image/png"; Announcement.originalname := "a.png";
              Announcement.buffer := [Byte.x89; Byte.x50; Byte.x4e; Byte.x47] |}).
  reflexivity.
Defined.

(** ** The selection of the upload component *)

Lemma pick_take (maxFiles : nat) (selectedMedia : list MediaUpload.MediaFile)
    (files : list MediaUpload.File) :
  forall newMediaFiles,
    Selection.pick maxFiles selectedMedia files newMediaFiles
    = newMediaFiles
        ++ take (maxFiles - (length selectedMedia + length newMediaFiles))
             (omap Selection.added files).
Proof.
  induction files as [|file rest IH]; intros newMediaFiles.
  - cbn [Selection.pick omap list_omap]. now rewrite take_nil, app_nil_r.
  - cbn [Selection.pick omap list_omap]. unfold Selection.added at 1.
    destruct (Nat.leb_spec maxFiles (length selectedMedia + length newMediaFiles))
      as [Hfull|Hroom].
    + replace (maxFiles - (length selectedMedia + length newMediaFiles)) with 0 by lia.
      now rewrite take_0, app_nil_r.
    + destruct (MediaUpload.processFile file) as [[mediaFile|]|e].
      * rewrite IH, length_app, <- app_assoc. cbn [length app].
        replace (maxFiles - (length selectedMedia + length newMediaFiles))
          with (S (maxFiles - (length selectedMedia + (length newMediaFiles + 1))))
          by lia.
        reflexivity.
      * apply IH.
      * apply IH.
Qed.

Lemma added_not_large (file : MediaUpload.File) (mediaFile : MediaUpload.MediaFile) :
  Selection.added file = Some mediaFile ->
  MediaUpload.file mediaFile = file
  /\ (JS.startsWith (MediaUpload.file_type file) "image/"
      && (1048576 <? MediaUpload.file_size file)%N = false)
  /\ exists result, MediaUpload.dataURL file = Some result
                    /\ MediaUpload.url mediaFile = MediaUpload.Reader result.
Proof.
  unfold Selection.added, MediaUpload.processFile.
  change (1024 * 1024)%N with 1048576%N.
  destruct (JS.startsWith (MediaUpload.file_type file) "image/"
            && (1048576 <? MediaUpload.file_size file)%N); [discriminate|].
  destruct (MediaUpload.dataURL file) as [result|]; [|discriminate].
  destruct (JS.truthy result); [|discriminate].
  intros E. inversion E; subst. cbn. eauto.
Qed.

(** X16. [handleFileSelect] does nothing when no file was picked.
    Otherwise it keeps the current selection in front and appends the
    entries of the picked files for which [processFile] resolved with one,
    in the order they were picked, up to the room left under [maxFiles];
    the new selection is never longer than the larger of [maxFiles] and the
    old length. A file whose [processFile] is rejected is skipped, so no
    image over 1048576 bytes is ever added: every added entry is the data
    URL of its file as the reader gave it. *)
Theorem handleFileSelect_fills_up_to_max (maxFiles : nat)
    (selectedMedia : list MediaUpload.MediaFile)
    (file : MediaUpload.File) (rest : list MediaUpload.File) :
  let newMediaFiles :=
    take (maxFiles - length selectedMedia) (omap Selection.added (file :: rest)) in
  Selection.handleFileSelect maxFiles selectedMedia [] = None
  /\ Selection.handleFileSelect maxFiles selectedMedia (file :: rest)
     = Some (selectedMedia ++ newMediaFiles)
  /\ length (selectedMedia ++ newMediaFiles) <= Nat.max maxFiles (length selectedMedia)
  /\ Forall (fun mediaFile =>
               In (MediaUpload.file mediaFile) (file :: rest)
               /\ (JS.startsWith (MediaUpload.file_type (MediaUpload.file mediaFile)) "image/"
                   && (1048576 <? MediaUpload.file_size (MediaUpload.file mediaFile))%N
                   = false)
               /\ exists result,
                    MediaUpload.dataURL (MediaUpload.file mediaFile) = Some result
                    /\ MediaUpload.url mediaFile = MediaUpload.Reader result)
       newMediaFiles.
Proof.
  cbv zeta. split; [reflexivity|]. split; [|split].
  - unfold Selection.handleFileSelect. rewrite pick_take.
    cbn [length app]. now rewrite Nat.add_0_r.
  - rewrite length_app, length_take. lia.
  - apply Forall_forall. intros mediaFile Hin.
    apply elem_of_take in Hin as (i & Hin & _).
    apply list_elem_of_lookup_2 in Hin.
    apply list_elem_of_omap in Hin as (f & Hf & Hadd).
    apply added_not_large in Hadd as (Hfile & Hsmall & Hurl).
    rewrite Hfile. split; [now rewrite <- list_elem_of_In|]. split; assumption.
Qed.

Lemma filterIndex_delete {A : Type} (index : nat) (a : list A) :
  forall i,
    Selection.filterIndex (fun j => negb (j =? index)%nat) a i
    = if (index <? i)%nat then a else take (index - i) a ++ drop (S (index - i)) a.
Proof.
  induction a as [|x a IH]; intros i.
  - cbn [Selection.filterIndex]. rewrite take_nil, drop_nil. now destruct (index <? i)%nat.
  - cbn [Selection.filterIndex]. rewrite IH.
    destruct (Nat.eqb_spec i index) as [->|Hne]; cbn [negb].
    + rewrite Nat.ltb_irrefl, Nat.sub_diag.
      replace (index <? S index)%nat with true by (symmetry; apply Nat.ltb_lt; lia).
      reflexivity.
    + destruct (Nat.ltb_spec index i) as [Hlt|Hge].
      * replace (index <? S i)%nat with true by (symmetry; apply Nat.ltb_lt; lia).
        reflexivity.
      * replace (index <? S i)%nat with false by (symmetry; apply Nat.ltb_ge; lia).
        replace (index - i) with (S (index - S i)) by lia.
        reflexivity.
Qed.

(** X17. [removeMedia] drops exactly the entry at the given index and
    keeps the others in their order; an index past the end leaves the
    selection as it is. *)
Theorem removeMedia_drops_one (selectedMedia : list MediaUpload.MediaFile)
    (index : nat) :
  Selection.removeMedia selectedMedia index
  = take index selectedMedia ++ drop (S index) selectedMedia
  /\ (index < length selectedMedia ->
      S (length (Selection.removeMedia selectedMedia index)) = length selectedMedia)
  /\ (length selectedMedia <= index ->
      Selection.removeMedia selectedMedia index = selectedMedia).
Proof.
  assert (E : Selection.removeMedia selectedMedia index
              = take index selectedMedia ++ drop (S index) selectedMedia).
  { unfold Selection.removeMedia. rewrite filterIndex_delete.
    cbn. now rewrite Nat.sub_0_r. }
  split; [exact E|]. rewrite E. split.
  - intros Hlt. rewrite length_app, length_take, length_drop. lia.
  - intros Hge. rewrite take_ge, drop_ge by lia. apply app_nil_r.
Qed.

(** X18. [processFile] is rejected exactly for the images of more than
    1048576 bytes, whether or not they would load. It resolves with [null]
    exactly when a file that is read as it is cannot be read or reads as
    the empty string. A result carries the file it was made from and that
    file's data URL as the reader gave it; it is labelled [image] exactly
    when the file's MIME type starts with [image/] (so every other file is
    labelled [video]), and a file labelled [video] gets its own data URL as
    thumbnail. *)
Theorem processFile_outcomes (f : MediaUpload.File) :
  let large := JS.startsWith (MediaUpload.file_type f) "image/"
               && (1048576 <? MediaUpload.file_size f)%N in
  (throws (MediaUpload.processFile f) <-> large = true)
  /\ (MediaUpload.processFile f = Ok None <->
      large = false
      /\ (MediaUpload.dataURL f = None \/ MediaUpload.dataURL f = Some ""%string))
  /\ (forall out, MediaUpload.processFile f = Ok (Some out) ->
        MediaUpload.file out = f
        /\ (exists result, MediaUpload.dataURL f = Some result
                           /\ MediaUpload.url out = MediaUpload.Reader result)
        /\ MediaUpload.type out
           = (if JS.startsWith (MediaUpload.file_type f) "image/" then "image" else "video")
        /\ MediaUpload.thumbnailUrl out
           = (if JS.startsWith (MediaUpload.file_type f) "image/"
              then None else Some (MediaUpload.url out))).
Proof.
  cbv zeta. unfold MediaUpload.processFile, MediaUpload.newImage, throws.
  change (1024 * 1024)%N with 1048576%N.
  destruct (JS.startsWith (MediaUpload.file_type f) "image/") eqn:Hi;
    destruct (1048576 <? MediaUpload.file_size f)%N eqn:Hs; cbn [andb].
  - split; [split; eauto|]. split; [|discriminate].
    split; [discriminate|]. intros [H _]; discriminate H.
  - destruct (MediaUpload.dataURL f) as [[|c result]|]; cbn [JS.truthy].
    + split; [split; [intros [e He]; discriminate He|discriminate]|].
      split; [|discriminate]. split; auto.
    + split; [split; [intros [e He]; discriminate He|discriminate]|]. split.
      * split; [discriminate|]. intros [_ [H|H]]; discriminate H.
      * intros out E. inversion E; subst. cbn. repeat split. eauto.
    + split; [split; [intros [e He]; discriminate He|discriminate]|].
      split; [|discriminate]. split; auto.
  - destruct (MediaUpload.dataURL f) as [[|c result]|]; cbn [JS.truthy].
    + split; [split; [intros [e He]; discriminate He|discriminate]|].
      split; [|discriminate]. split; auto.
    + split; [split; [intros [e He]; discriminate He|discriminate]|]. split.
      * split; [discriminate|]. intros [_ [H|H]]; discriminate H.
      * intros out E. inversion E; subst. cbn. repeat split. eauto.
    + split; [split; [intros [e He]; discriminate He|discriminate]|].
      split; [|discriminate]. split; auto.
  - destruct (MediaUpload.dataURL f) as [[|c result]|]; cbn [JS.truthy].
    + split; [split; [intros [e He]; discriminate He|discriminate]|].
      split; [|discriminate]. split; auto.
    + split; [split; [intros [e He]; discriminate He|discriminate]|]. split.
      * split; [discriminate|]. intros [_ [H|H]]; discriminate H.
      * intros out E. inversion E; subst. cbn. repeat split. eauto.
    + split; [split; [intros [e He]; discriminate He|discriminate]|].
      split; [|discriminate]. split; auto.
Qed.

(** ** The canvas size *)

Lemma newDimensions_small (width height : N) :
  (N.max width height <= 800)%N ->
  MediaUpload.newDimensions width height = (width, height).
Proof.
  intros Hmax. unfold MediaUpload.newDimensions.
  destruct (N.ltb_spec height width).
  - destruct (N.ltb_spec 800 width); [lia|reflexivity].
  - destruct (N.ltb_spec 800 height); [lia|reflexivity].
Qed.

(** X19. The canvas is never larger than the image: neither side grows,
    and an image whose sides are both at most 800 keeps its size, so that
    sizing a second time changes nothing. A side can shrink to zero: for an
    image wider than 800 and wider than high, the canvas height is 0
    exactly when the width exceeds 800 times the height. *)
Theorem newDimensions_never_grows (width height : N) :
  let (width', height') := MediaUpload.newDimensions width height in
  (width' <= width)%N /\ (height' <= height)%N
  /\ MediaUpload.newDimensions width' height' = (width', height')
  /\ ((N.max width height <= 800)%N -> (width', height') = (width, height))
  /\ ((800 < width)%N -> (height < width)%N ->
      (height' = 0%N <-> (height * 800 < width)%N)).
Proof.
  pose proof (newDimensions_longer_side width height) as Hlong.
  pose proof (newDimensions_small width height) as Hsmall.
  unfold MediaUpload.newDimensions in *.
  destruct (N.ltb_spec height width) as [Hlt|Hge].
  - destruct (N.ltb_spec 800 width) as [Hbig|Hle].
    + assert (Hh : (height * 800 / width <= height)%N).
      { apply N.Div0.div_le_upper_bound. nia. }
      split; [lia|]. split; [exact Hh|].
      split; [apply newDimensions_small; lia|].
      split; [lia|]. intros _ _. split.
      * intros Hz. apply N.div_small_iff in Hz; lia.
      * intros Hs. apply N.div_small. exact Hs.
    + split; [lia|]. split; [lia|].
      split; [apply newDimensions_small; lia|]. split; [reflexivity|lia].
  - destruct (N.ltb_spec 800 height) as [Hbig|Hle].
    + assert (Hw : (width * 800 / height <= width)%N).
      { apply N.Div0.div_le_upper_bound. nia. }
      split; [exact Hw|]. split; [lia|].
      split; [apply newDimensions_small; lia|].
      split; lia.
    + split; [lia|]. split; [lia|].
      split; [apply newDimensions_small; lia|]. split; [reflexivity|lia].
Qed.

(** ** The extension in a request *)

Lemma lower_ascii_dot (c : ascii) :
  Ascii.eqb (JS.lower_ascii c) "." = Ascii.eqb c ".".
Proof.
  destruct c as [[] [] [] [] [] [] [] []]; reflexivity.
Qed.

Lemma lower_ascii_twice (c : ascii) :
  JS.lower_ascii (JS.lower_ascii c) = JS.lower_ascii c.
Proof.
  destruct c as [[] [] [] [] [] [] [] []]; reflexivity.
Qed.

Lemma toLowerCase_twice (s : string) :
  JS.toLowerCase (JS.toLowerCase s) = JS.toLowerCase s.
Proof.
  induction s as [|c s IH]; [reflexivity|].
  cbn [JS.toLowerCase]. now rewrite lower_ascii_twice, IH.
Qed.

Lemma split_toLowerCase (s : string) :
  JS.split "." (JS.toLowerCase s) = List.map JS.toLowerCase (JS.split "." s).
Proof.
  induction s as [|c s IH]; [reflexivity|].
  cbn [JS.toLowerCase JS.split]. rewrite lower_ascii_dot, IH.
  destruct (Ascii.eqb c "."); [reflexivity|].
  now destruct (JS.split "." s).
Qed.

Lemma last_map {A B : Type} (g : A -> B) (l : list A) : last (List.map g l) = g <$> last l.
Proof.
  induction l as [|x [|y l] IH]; try reflexivity.
  exact IH.
Qed.

(** X20. The content type of a download does not depend on the case of
    the requested file name: a request for [f] and one for [f] in lower
    case are given the same [Content-Type], so [.PNG] is served as
    [image/png]. *)
Theorem contentType_ignores_case (filename : string) :
  Routes.contentTypeOf (Routes.extOf (JS.toLowerCase filename))
  = Routes.contentTypeOf (Routes.extOf filename)
  /\ Routes.contentTypeOf (Routes.extOf ("photo.PNG")) = "image/png".
Proof.
  split; [|vm_compute; reflexivity].
  unfold Routes.extOf, JS.pop. rewrite split_toLowerCase, last_map.
  destruct (last (JS.split "." filename)) as [e|]; [|reflexivity].
  cbn [fmap option_fmap option_map]. now rewrite toLowerCase_twice.
Qed.

(** ** The MIME type read off a data URL *)

Lemma substring_all (s : string) : String.substring 0 (String.length s) s = s.
Proof.
  induction s as [|c s IH]; [reflexivity|].
  cbn [String.length String.substring]. now rewrite IH.
Qed.

Lemma startsWith_append (p s : string) : JS.startsWith (p ++ s)%string p = true.
Proof.
  unfold JS.startsWith. induction p as [|a p IH].
  - now destruct s.
  - change (String a p ++ s)%string with (String a (p ++ s))%string.
    cbn [String.prefix]. destruct (Ascii.ascii_dec a a); [exact IH|contradiction].
Qed.

Lemma match_data_step (c : ascii) (s : string) :
  JS.match_data (String c s)
  = if JS.startsWith (String c s) "data:" then
      match JS.non_semicolons (JS.drop5 (String c s)) with
      | EmptyString => JS.match_data s
      | g => Some g
      end
    else JS.match_data s.
Proof. reflexivity. Qed.

Lemma drop5_data (s : string) : JS.drop5 ("data:" ++ s)%string = s.
Proof.
  unfold JS.drop5.
  change ("data:" ++ s)%string
    with (String "d" (String "a" (String "t" (String "a" (String ":" s))))).
  cbn [String.length Nat.sub String.substring].
  rewrite Nat.sub_0_r. apply substring_all.
Qed.

Lemma non_semicolons_prefix (mime rest : string) :
  JS.includes ";" mime = false ->
  JS.non_semicolons (mime ++ String ";" rest)%string = mime.
Proof.
  induction mime as [|c mime IH]; intros H.
  - reflexivity.
  - cbn [JS.includes] in H. apply orb_false_iff in H as [Hc Hm].
    change (String c mime ++ String ";" rest)%string
      with (String c (mime ++ String ";" rest))%string.
    cbn [JS.non_semicolons]. now rewrite Hc, (IH Hm).
Qed.

(** X21. From a data URL of the form [data:<mime>;<rest>], with a MIME
    type that is not empty and contains no semicolon, the local service
    reads back exactly that MIME type. When [data:] is directly followed
    by a semicolon, the search goes on in the rest of the url, and
    [image/jpeg] is assumed when nothing is found there. *)
Theorem mimeOf_data_url (mime rest : string) :
  mime <> ""%string ->
  JS.includes ";" mime = false ->
  MediaStorage.mimeOf ("data:" ++ mime ++ ";" ++ rest)%string = mime
  /\ MediaStorage.mimeOf ("data:;" ++ rest)%string
     = match JS.match_data rest with Some m => m | None => "image/jpeg"%string end.
Proof.
  intros Hne Hsemi. unfold MediaStorage.mimeOf. split.
  - pose proof (startsWith_append "data:" (mime ++ ";" ++ rest)) as Hp.
    pose proof (drop5_data (mime ++ ";" ++ rest)) as Hd.
    change ("data:" ++ mime ++ ";" ++ rest)%string
      with (String "d" ("ata:" ++ mime ++ ";" ++ rest))%string in *.
    rewrite match_data_step, Hp, Hd.
    change (mime ++ ";" ++ rest)%string with (mime ++ String ";" rest)%string.
    rewrite non_semicolons_prefix by exact Hsemi.
    destruct mime; [contradiction|reflexivity].
  - pose proof (startsWith_append "data:" (";" ++ rest)) as Hp.
    pose proof (drop5_data (";" ++ rest)) as Hd.
    change ("data:" ++ ";" ++ rest)%string
      with (String "d" (String "a" (String "t" (String "a" (String ":"
              (String ";" rest))))))%string in *.
    change ("data:;" ++ rest)%string
      with (String "d" (String "a" (String "t" (String "a" (String ":"
              (String ";" rest))))))%string.
    rewrite match_data_step, Hp, Hd. cbn [JS.non_semicolons Ascii.eqb Bool.eqb].
    rewrite !match_data_step. unfold JS.startsWith. cbn [String.prefix].
    repeat match goal with
           | |- context [Ascii.ascii_dec ?a ?b] =>
               destruct (Ascii.ascii_dec a b); [discriminate|]
           end.
    reflexivity.
Qed.

(** X21, witness. *)
Lemma mimeOf_png_data_url :
  MediaStorage.mimeOf ("data:" ++ "image/png" ++ ";" ++ "base64,iVBORw0KGgo=")%string
  = "image/png"%string
  /\ MediaStorage.mimeOf ("data:;" ++ "base64,iVBORw0KGgo=")%string
     = match JS.match_data "base64,iVBORw0KGgo=" with
       | Some m => m
       | None => "image/jpeg"%string
       end.
Proof.
  apply (mimeOf_data_url "image/png" "base64,iVBORw0KGgo=").
  - discriminate.
  - reflexivity.
Defined.

(** ** What an upload returns *)

(** X22. When [uploadImage] returns, exactly one request was added to
    those already sent, the provider answered it with a 2xx response whose
    reply reports success and carries data, and the result is read off
    that data: its url, delete url and id, and as thumbnail the thumb url
    unless it is missing or empty, in which case the medium url. *)
Theorem uploadImage_result (imgbbApiKey : option string)
    (network : nat -> CloudMedia.FormData -> CloudMedia.FetchOutcome)
    (dataUrl : string) (name : option string)
    (w w' : CloudMedia.World) (result : CloudMedia.CloudMediaResult) :
  CloudMedia.uploadImage imgbbApiKey network dataUrl name w = (Ok result, w') ->
  exists key response reply d,
    imgbbApiKey = Some key
    /\ CloudMedia.requests w'
       = CloudMedia.requests w ++ [CloudMedia.buildForm key dataUrl name]
    /\ network (length (CloudMedia.requests w)) (CloudMedia.buildForm key dataUrl name)
       = CloudMedia.Resolved response
    /\ (200 <= CloudMedia.status response <= 299)%Z
    /\ CloudMedia.json response = Some reply
    /\ CloudMedia.success reply = true
    /\ CloudMedia.data reply = Some d
    /\ CloudMedia.url result = CloudMedia.data_url d
    /\ CloudMedia.deleteUrl result = CloudMedia.data_delete_url d
    /\ CloudMedia.id result = CloudMedia.data_id d
    /\ CloudMedia.thumbnailUrl result
       = match CloudMedia.data_thumb_url d with
         | Some (String c thumb) => Some (String c thumb)
         | _ => CloudMedia.data_medium_url d
         end.
Proof.
  rewrite uploadImage_unfold.
  destruct imgbbApiKey as [key|]; [|discriminate].
  destruct (JS.truthy key); [|discriminate]. cbv zeta.
  destruct (network _ _) as [reason|response] eqn:Hnet; [discriminate|].
  destruct (CloudMedia.ok response) eqn:Hok; [|discriminate].
  destruct (CloudMedia.json response) as [reply|] eqn:Hjson; [|discriminate].
  destruct (CloudMedia.success reply) eqn:Hsucc; [|discriminate].
  destruct (CloudMedia.data reply) as [d|] eqn:Hdata; [|discriminate].
  intros E. inversion E; subst; clear E.
  exists key, response, reply, d. repeat split; try reflexivity; try assumption.
  - unfold CloudMedia.ok in Hok. lia.
  - unfold CloudMedia.ok in Hok. lia.
  - cbn [CloudMedia.thumbnailUrl]. unfold JS.or_else.
    now destruct (CloudMedia.data_thumb_url d) as [[|c thumb]|].
Qed.

(** X22, witness. A provider whose reply has an empty thumb url and a
    medium url. *)
Lemma uploadImage_result_medium_thumbnail :
  exists key response reply d,
    Some "secret"%string = Some key
    /\ CloudMedia.requests
         {| CloudMedia.requests := [[("key", "secret"); ("image", "AAAA")]] |}
       = CloudMedia.requests {| CloudMedia.requests := [] |}
         ++ [CloudMedia.buildForm key "data:image/png;base64,AAAA" None]
    /\ (fun (_ : nat) (_ : CloudMedia.FormData) =>
          CloudMedia.Resolved
            {| CloudMedia.status := 200; CloudMedia.text := "";
               CloudMedia.json :=
                 Some {| CloudMedia.success := true;
                         CloudMedia.error_message := None;
                         CloudMedia.data :=
                           Some {| CloudMedia.data_url := "https://cdn.example/x.png";
                                   CloudMedia.data_thumb_url := Some ""%string;
                                   CloudMedia.data_medium_url :=
                                     Some "https://cdn.example/x_medium.png"%string;
                                   CloudMedia.data_delete_url := None;
                                   CloudMedia.data_id := "x" |} |} |})
         (length (CloudMedia.requests {| CloudMedia.requests := [] |}))
         (CloudMedia.buildForm key "data:image/png;base64,AAAA" None)
       = CloudMedia.Resolved response
    /\ (200 <= CloudMedia.status response <= 299)%Z
    /\ CloudMedia.json response = Some reply
    /\ CloudMedia.success reply = true
    /\ CloudMedia.data reply = Some d
    /\ CloudMedia.url
         {| CloudMedia.url := "https://cdn.example/x.png";
            CloudMedia.thumbnailUrl := Some "https://cdn.example/x_medium.png"%string;
            CloudMedia.deleteUrl := None; CloudMedia.id := "x" |}
       = CloudMedia.data_url d
    /\ CloudMedia.deleteUrl
         {| CloudMedia.url := "https://cdn.example/x.png";
            CloudMedia.thumbnailUrl := Some "https://cdn.example/x_medium.png"%string;
            CloudMedia.deleteUrl := None; CloudMedia.id := "x" |}
       = CloudMedia.data_delete_url d
    /\ CloudMedia.id
         {| CloudMedia.url := "https://cdn.example/x.png";
            CloudMedia.thumbnailUrl := Some "https://cdn.example/x_medium.png"%string;
            CloudMedia.deleteUrl := None; CloudMedia.id := "x" |}
       = CloudMedia.data_id d
    /\ CloudMedia.thumbnailUrl
         {| CloudMedia.url := "https://cdn.example/x.png";
            CloudMedia.thumbnailUrl := Some "https://cdn.example/x_medium.png"%string;
            CloudMedia.deleteUrl := None; CloudMedia.id := "x" |}
       = match CloudMedia.data_thumb_url d with
         | Some (String c thumb) => Some (String c thumb)
         | _ => CloudMedia.data_medium_url d
         end.
Proof.
  apply (uploadImage_result (Some "secret"%string) _ "data:image/png;base64,AAAA" None
           {| CloudMedia.requests := [] |}).
  reflexivity.
Defined.

(** ** The response to a download, header by header *)

Lemma contentTypes_member (key contentType : string) :
  Routes.contentTypes !! key = Some contentType ->
  JS.memberOr Routes.contentTypes key "application/octet-stream" = contentType.
Proof.
  intros Hl. unfold JS.memberOr. rewrite Hl.
  apply elem_of_list_to_map_2 in Hl.
  repeat (apply elem_of_cons in Hl as [Hl|Hl]; [now inversion Hl|]).
  now apply elem_of_nil in Hl.
Qed.

Lemma inherited_lower_case (s inherited : string) :
  JS.objectPrototype !! JS.toLowerCase s = Some inherited ->
  (JS.toLowerCase s = "constructor"
   /\ inherited = "function Object() { [native code] }")%string
  \/ (JS.toLowerCase s = "__proto__" /\ inherited = "[object Object]")%string.
Proof.
  intros Hl. pose proof (toLowerCase_twice s) as Hlow.
  apply elem_of_list_to_map_2 in Hl.
  repeat (apply elem_of_cons in Hl as [Hl|Hl];
          [injection Hl as Hk Hv;
           first [ left; split; [exact Hk|exact Hv]
                 | right; split; [exact Hk|exact Hv]
                 | exfalso; rewrite Hk in Hlow; vm_compute in Hlow; discriminate Hlow ]|]).
  now apply elem_of_nil in Hl.
Qed.

(** X23. [GET /uploads/:filename] leaves the directory alone and answers
    either 404 without headers of its own, exactly when no file named
    after the part before the first dot exists under the eight probed
    extensions, or 200 with the bytes of such a file and
    [Cache-Control: public, max-age=31536000]. The [Content-Type] is
    looked up under the lower-cased last dot-separated part of the
    filename: the table entry when there is one, and otherwise
    [application/octet-stream], unless that part is [constructor] or
    [__proto__], for which the text of the member the table inherits is
    sent. *)
Theorem getUploads_status_and_headers (filename : string) (w : MediaStorage.World) :
  let mediaId := Routes.mediaIdOf filename in
  let ext := default ""%string (JS.toLowerCase <$> JS.pop (JS.split "." filename)) in
  ((forall e, In e MediaStorage.extensions ->
              MediaStorage.existsSync w (mediaId ++ "." ++ e)%string = false)
   /\ Routes.getUploads filename w
      = (Ok {| Routes.statusCode := 404; Routes.headers := [];
               Routes.body := Routes.Json "Media not found" |}, w))
  \/ (exists e fs buffer contentType,
         In e MediaStorage.extensions
         /\ MediaStorage.disk w = Some fs
         /\ fs !! (mediaId ++ "." ++ e)%string = Some buffer
         /\ Routes.getUploads filename w
            = (Ok {| Routes.statusCode := 200;
                     Routes.headers := [("Content-Type", contentType);
                                        ("Cache-Control", "public, max-age=31536000")];
                     Routes.body := Routes.Send buffer |}, w)
         /\ match Routes.contentTypes !! ext with
            | Some known => contentType = known
            | None =>
                if String.eqb ext "constructor"
                then contentType = "function Object() { [native code] }"%string
                else if String.eqb ext "__proto__"
                     then contentType = "[object Object]"%string
                     else contentType = "application/octet-stream"%string
            end).
Proof.
  intros mediaId ext. rewrite getUploads_unfold. fold mediaId.
  destruct (getMedia_cases mediaId w)
    as [[Hnone Hget]|(e & fs & buffer & He & Hdisk & Hfile & Hget)]; rewrite Hget.
  - left. split; [exact Hnone|reflexivity].
  - right. exists e, fs, buffer. eexists. repeat split; try eassumption.
    rewrite contentTypeOf_member. unfold Routes.extOf. fold ext.
    destruct (Routes.contentTypes !! ext) as [known|] eqn:Hk.
    + now apply contentTypes_member.
    + unfold JS.memberOr. rewrite Hk.
      destruct (JS.objectPrototype !! ext) as [inherited|] eqn:Hp.
      * assert (Hcases : (ext = "constructor"
                          /\ inherited = "function Object() { [native code] }")%string
                         \/ (ext = "__proto__" /\ inherited = "[object Object]")%string).
        { subst ext. destruct (JS.pop (JS.split "." filename)) as [s|]; cbn in Hp |- *.
          - now apply inherited_lower_case.
          - vm_compute in Hp. discriminate Hp. }
        destruct Hcases as [[-> ->]|[-> ->]]; reflexivity.
      * destruct (String.eqb_spec ext "constructor") as [E|_].
        { rewrite E in Hp. vm_compute in Hp. discriminate Hp. }
        destruct (String.eqb_spec ext "__proto__") as [E|_]; [|reflexivity].
        rewrite E in Hp. vm_compute in Hp. discriminate Hp.
Qed.
